(** * The dispatch-and-reputation engine of the bitrecs validator

    A shallow embedding of [src/template/base/validator.py]
    ([BaseValidatorNeuron]): the response arbiter [select_top_result], the
    API branch of the dispatch loop in [run], the reputation accumulator
    [update_scores], the weight normalisation of [set_weights] and the
    membership resync [resync_metagraph].

    numpy arrays are lists; an element type together with its arithmetic is
    an instance of the class [Dtype].  The engine has two of them: [F], the
    dtype of the score vector, a float32 array as [__init__] builds it and a
    float64 array once [resync_metagraph] has grown it, and [R], the dtype
    of the rewards, which also stands for Python's floats; a value of dtype
    [R] enters an array of dtype [F] through a [Cast].  What only depends on
    the shape of the computation is proved for every instance.  Three
    instances are given: [binary64], the IEEE doubles of the kernel, and
    [binary32], the single-precision floats of the Standard Library's
    [SpecFloat], on both of which the definitions run as the Python code
    does, and [xnum], the special values of IEEE arithmetic (NaN and the two
    infinities) around exact rationals, on which the arithmetic properties
    are proved with rounding and overflow left out.  Python exceptions are
    the constructors of [exn]; a function that can raise returns a [result],
    next to the state it leaves when it mutates the validator before
    raising. *)

From Stdlib Require Import ZArith QArith Qcanon Floats Lia.
From stdpp Require Import base list strings numbers pretty.

Open Scope Z_scope.

(** ** Exceptions and results *)

Inductive exn : Type :=
| ValueError
| IndexError
| UnboundLocalError.

Inductive result (A : Type) : Type :=
| Ok (a : A)
| Raise (e : exn).
Arguments Ok {A} a.
Arguments Raise {A} e.

#[global] Instance result_ret : MRet result := fun _ a => Ok a.
#[global] Instance result_bind : MBind result := fun _ _ f m =>
  match m with
  | Ok a => f a
  | Raise e => Raise e
  end.

Definition is_ok {A} (r : result A) : bool :=
  match r with Ok _ => true | Raise _ => false end.

(** ** Array element types *)

Class Dtype (F : Type) : Type := {
  fzero : F;
  fone : F;
  fadd : F -> F -> F;
  fsub : F -> F -> F;
  fmul : F -> F -> F;
  fdiv : F -> F -> F;
  fabs : F -> F;
  (** [x == y] of numpy: false as soon as one side is NaN *)
  feqb : F -> F -> bool;
  fisnan : F -> bool;
  fisposinf : F -> bool;
  fisneginf : F -> bool;
  (** [np.finfo(dtype).max] and [np.finfo(dtype).min] *)
  finfo_max : F;
  finfo_min : F
}.

(** *** IEEE binary64 *)

#[global] Instance binary64 : Dtype float := {|
  fzero := 0%float;
  fone := 1%float;
  fadd := PrimFloat.add;
  fsub := PrimFloat.sub;
  fmul := PrimFloat.mul;
  fdiv := PrimFloat.div;
  fabs := PrimFloat.abs;
  feqb := PrimFloat.eqb;
  fisnan := PrimFloat.is_nan;
  fisposinf := fun x => PrimFloat.eqb x infinity;
  fisneginf := fun x => PrimFloat.eqb x neg_infinity;
  finfo_max := 0x1.fffffffffffffp+1023%float;
  finfo_min := (- 0x1.fffffffffffffp+1023)%float
|}.

(** *** Exact arithmetic with the IEEE special values *)

Inductive xnum : Type :=
| Fin (q : Qc)
| PInf
| NInf
| NaN.

Definition xneg (x : xnum) : xnum :=
  match x with
  | Fin q => Fin (- q)%Qc
  | PInf => NInf
  | NInf => PInf
  | NaN => NaN
  end.

Definition xadd (x y : xnum) : xnum :=
  match x, y with
  | NaN, _ | _, NaN => NaN
  | PInf, NInf | NInf, PInf => NaN
  | PInf, _ | _, PInf => PInf
  | NInf, _ | _, NInf => NInf
  | Fin a, Fin b => Fin (a + b)%Qc
  end.

Definition xsub (x y : xnum) : xnum := xadd x (xneg y).

(** The sign of a rational as a comparison with zero. *)
Definition qsign (q : Qc) : comparison := (q ?= 0)%Qc.

Definition inf_of_sign (c : comparison) : xnum :=
  match c with
  | Gt => PInf
  | Lt => NInf
  | Eq => NaN
  end.

Definition xsign (x : xnum) : option comparison :=
  match x with
  | Fin q => Some (qsign q)
  | PInf => Some Gt
  | NInf => Some Lt
  | NaN => None
  end.

Definition sign_mul (c d : comparison) : comparison :=
  match c, d with
  | Eq, _ | _, Eq => Eq
  | Gt, Gt | Lt, Lt => Gt
  | _, _ => Lt
  end.

Definition xmul (x y : xnum) : xnum :=
  match x, y with
  | Fin a, Fin b => Fin (a * b)%Qc
  | _, _ =>
      match xsign x, xsign y with
      | Some c, Some d => inf_of_sign (sign_mul c d)
      | _, _ => NaN
      end
  end.

Definition xdiv (x y : xnum) : xnum :=
  match x, y with
  | NaN, _ | _, NaN => NaN
  | Fin a, Fin b =>
      if decide (b = 0%Qc) then inf_of_sign (qsign a) else Fin (a / b)%Qc
  | Fin _, _ => Fin 0%Qc
  | _, Fin b =>
      match xsign x with
      | Some c => inf_of_sign (sign_mul c (match qsign b with Lt => Lt | _ => Gt end))
      | None => NaN
      end
  | _, _ => NaN
  end.

Definition xabs (x : xnum) : xnum :=
  match x with
  | Fin q => Fin (if decide (q < 0)%Qc then - q else q)%Qc
  | PInf | NInf => PInf
  | NaN => NaN
  end.

Definition xeqb (x y : xnum) : bool :=
  match x, y with
  | Fin a, Fin b => bool_decide (a = b)
  | PInf, PInf | NInf, NInf => true
  | _, _ => false
  end.

Definition xisnan (x : xnum) : bool :=
  match x with NaN => true | _ => false end.

(** The largest finite double, [2^1024 - 2^971]. *)
Definition xmax : Qc := Q2Qc (inject_Z (2 ^ 1024 - 2 ^ 971)).

#[global] Instance exact : Dtype xnum := {|
  fzero := Fin 0%Qc;
  fone := Fin 1%Qc;
  fadd := xadd;
  fsub := xsub;
  fmul := xmul;
  fdiv := xdiv;
  fabs := xabs;
  feqb := xeqb;
  fisnan := xisnan;
  fisposinf := fun x => match x with PInf => true | _ => false end;
  fisneginf := fun x => match x with NInf => true | _ => false end;
  finfo_max := Fin xmax;
  finfo_min := Fin (- xmax)%Qc
|}.

(** *** IEEE binary32

    The kernel has no single-precision floats: a float32 is a [spec_float]
    of the Standard Library, with its arithmetic at a precision of 24 bits
    and the exponent of the infinities at 128. *)

Definition float32 : Type := spec_float.

#[global] Instance binary32 : Dtype float32 := {|
  fzero := S754_zero false;
  fone := SFone 24 128;
  fadd := SFadd 24 128;
  fsub := SFsub 24 128;
  fmul := SFmul 24 128;
  fdiv := SFdiv 24 128;
  fabs := SFabs;
  feqb := SFeqb;
  fisnan := fun x => match x with S754_nan => true | _ => false end;
  fisposinf := fun x => match x with S754_infinity false => true | _ => false end;
  fisneginf := fun x => match x with S754_infinity true => true | _ => false end;
  finfo_max := SFmax_float 24 128;
  finfo_min := SFopp (SFmax_float 24 128)
|}.

(** *** Casts

    [astype] is how numpy stores a value of dtype [R] into an array of dtype
    [F], and how it brings a Python float to the dtype of the array it is
    multiplied with. *)

Class Cast (R F : Type) : Type := astype : R -> F.

(** Within one dtype nothing happens. *)
#[global] Instance same_dtype {F : Type} : Cast F F | 10 := fun x => x.

(** A double becomes the nearest float32, an infinity when it is too
    large. *)
#[global] Instance float64_to_float32 : Cast float float32 | 0 := fun x =>
  match Prim2SF x with
  | S754_finite s m e => binary_round 24 128 s m e
  | y => y
  end.

(** Every float32 is a double. *)
#[global] Instance float32_to_float64 : Cast float32 float | 0 := fun x =>
  SF2Prim match x with
          | S754_finite s m e => binary_round 53 1024 s m e
          | y => y
          end.

Definition finite (x : xnum) : Prop :=
  match x with Fin _ => True | _ => False end.

Definition nonneg (x : xnum) : Prop :=
  match x with Fin q => (0 <= q)%Qc | _ => False end.

Definition in_unit (x : xnum) : Prop :=
  match x with Fin q => (0 <= q)%Qc /\ (q <= 1)%Qc | _ => False end.

(** The sum of a list of rationals. *)
Definition qsum (qs : list Qc) : Qc := foldr Qcplus 0%Qc qs.

(** ** Data of the engine *)

(** bittensor's [AxonInfo]: the identity served at a slot and where to reach
    it.  Two axons are [==] when all their fields are. *)
Record AxonInfo : Type := {
  hotkey : string;
  ip : string;
  port : Z
}.

#[global] Instance AxonInfo_eq_dec : EqDecision AxonInfo.
Proof. solve_decision. Defined.

(** The membership snapshot, bittensor's [metagraph]. *)
Module Metagraph.
Record t : Type := {
  axons : list AxonInfo;
  hotkeys : list string;
  uids : list Z;
  n : nat
}.

(** What bittensor guarantees of a synced metagraph: the hotkeys are those of
    the axons, one per neuron. *)
Definition wf (m : t) : Prop :=
  hotkeys m = map hotkey (axons m) /\ n m = length (hotkeys m).
End Metagraph.

(** [template.protocol.BitrecsRequest], with the fields the engine reads. *)
Record BitrecsRequest : Type := {
  query : string;
  num_results : Z;
  results : list string;
  miner_uid : string
}.

(** [SynapseWithEvent]: the request, its [threading.Event] ([true] once set)
    and the slot of the answer. *)
Record SynapseWithEvent : Type := {
  input_synapse : BitrecsRequest;
  event : bool;
  output_synapse : BitrecsRequest
}.

Section Engine.
(** [F] is the dtype of the score vector; [R] is the dtype of the rewards,
    and of Python's floats. *)
Context {R F : Type} `{Dtype R} `{Dtype F} `{Cast R F}.

(** The fields of [BaseValidatorNeuron] the engine owns, and
    [config.neuron.moving_average_alpha]. *)
Record Validator : Type := {
  hotkeys : list string;
  scores : list F;
  metagraph : Metagraph.t;
  moving_average_alpha : R
}.

Definition set_scores (s : list F) (self : Validator) : Validator :=
  {| hotkeys := hotkeys self; scores := s; metagraph := metagraph self;
     moving_average_alpha := moving_average_alpha self |}.

Definition set_hotkeys (h : list string) (self : Validator) : Validator :=
  {| hotkeys := h; scores := scores self; metagraph := metagraph self;
     moving_average_alpha := moving_average_alpha self |}.

Definition set_metagraph (m : Metagraph.t) (self : Validator) : Validator :=
  {| hotkeys := hotkeys self; scores := scores self; metagraph := m;
     moving_average_alpha := moving_average_alpha self |}.

(** *** [update_scores] *)

(** [np.nan_to_num(x, nan=0)] on one element. *)
Definition nan_to_num (x : R) : R :=
  if fisnan x then fzero
  else if fisposinf x then finfo_max
  else if fisneginf x then finfo_min
  else x.

(** The constants that [np.nan_to_num] writes are numbers. *)
Definition nan_free_constants : Prop :=
  fisnan (fzero : R) = false /\ fisnan (finfo_max : R) = false /\
  fisnan (finfo_min : R) = false.

(** The first four lines of [update_scores]: the rewards are rewritten only
    when one of them is NaN. *)
Definition sanitize (rewards : list R) : list R :=
  if existsb fisnan rewards then map nan_to_num rewards else rewards.

(** An index into an array of length [len], as numpy reads it: negative
    indices count from the end, anything else out of range raises. *)
Definition array_index (len : nat) (u : Z) : result nat :=
  if decide (0 <= u < Z.of_nat len) then Ok (Z.to_nat u)
  else if decide (- Z.of_nat len <= u < 0) then Ok (Z.to_nat (u + Z.of_nat len))
  else Raise IndexError.

(** [arr[uids_array] = rewards] for arrays of one size: each reward is
    stored in the dtype of [arr]. *)
Fixpoint scatter (uids : list Z) (rewards : list R) (arr : list F)
  : result (list F) :=
  match uids, rewards with
  | u :: uids', r :: rewards' =>
      i ← array_index (length arr) u;
      scatter uids' rewards' (<[i := astype r]> arr)
  | _, _ => Ok arr
  end.

Definition zeros (len : nat) : list F := replicate len fzero.

(** [alpha * scattered_rewards + (1 - alpha) * self.scores]: [alpha] and
    [1 - alpha] are Python floats, the second computed as one; each is
    brought to the dtype of the array before it multiplies it. *)
Definition moving_average (alpha : R) (scattered old : list F) : list F :=
  zip_with (fun r s => fadd (fmul (astype alpha) r)
                            (fmul (astype (fsub fone alpha)) s))
           scattered old.

Definition update_scores (rewards : list R) (uids : list Z)
    (self : Validator) : Validator * result unit :=
  let rewards := sanitize rewards in
  if decide (length rewards = 0%nat \/ length uids = 0%nat) then (self, Ok ())
  else if decide (length rewards <> length uids) then (self, Raise ValueError)
  else
    match scatter uids rewards (zeros (length (scores self))) with
    | Raise e => (self, Raise e)
    | Ok scattered_rewards =>
        let alpha := moving_average_alpha self in
        (set_scores (moving_average alpha scattered_rewards (scores self)) self,
         Ok ())
    end.

(** *** [set_weights] *)

(** The calls [set_weights] makes to its collaborators, in order. *)
Inductive call : Type :=
| ProcessWeights (uids : list Z) (weights : list F)
| ConvertWeights (uids : list Z) (weights : list F)
| SubtensorSetWeights (uids : list Z) (weights : list Z).

(** The sum of an array, [np.add.reduce], in the order in which numpy adds
    the elements of a contiguous array (its [pairwise_sum]).  Fewer than
    eight elements are added from the left, starting from 0. *)
Definition sum_left (xs : list F) : F := foldl fadd fzero xs.

(** Up to 128 elements: eight accumulators [r] start as the first eight
    elements and take in the following blocks of eight, [accumulate] doing
    [blocks] of them; they are then added in pairs, and the elements left
    over are added from the left. *)
Fixpoint accumulate (blocks : nat) (r xs : list F) : list F * list F :=
  match blocks with
  | O => (r, xs)
  | S blocks' => accumulate blocks' (zip_with fadd r (take 8 xs)) (drop 8 xs)
  end.

Definition unrolled_sum (xs : list F) : F :=
  let '(r, rest) := accumulate (length xs / 8 - 1) (take 8 xs) (drop 8 xs) in
  match r with
  | [r0; r1; r2; r3; r4; r5; r6; r7] =>
      foldl fadd
        (fadd (fadd (fadd r0 r1) (fadd r2 r3)) (fadd (fadd r4 r5) (fadd r6 r7)))
        rest
  | _ => sum_left xs
  end.

(** More than 128 elements: the array is cut near its middle, at a multiple
    of eight, and the sums of the two parts are added.  The recursion is
    on [fuel], of which the length of the array is enough. *)
Fixpoint pairwise_sum (fuel : nat) (xs : list F) : F :=
  let n := length xs in
  if (n <? 8)%nat then sum_left xs
  else if (n <=? 128)%nat then unrolled_sum xs
  else
    match fuel with
    | O => unrolled_sum xs
    | S fuel' =>
        let n2 := (n / 2 - (n / 2) mod 8)%nat in
        fadd (pairwise_sum fuel' (take n2 xs)) (pairwise_sum fuel' (drop n2 xs))
    end.

(** The reduction starts from 0. *)
Definition fsum (xs : list F) : F := fadd fzero (pairwise_sum (length xs) xs).

(** [np.linalg.norm(scores, ord=1)]: the sum of the absolute values. *)
Definition l1_norm (xs : list F) : F := fsum (map fabs xs).

(** The norm after the guard
    [if np.any(norm == 0) or np.isnan(norm).any(): norm = np.ones_like(norm)]. *)
Definition guarded_norm (xs : list F) : F :=
  let norm := l1_norm xs in
  if feqb norm fzero || fisnan norm then fone else norm.

Definition raw_weights (xs : list F) : list F :=
  map (fun s => fdiv s (guarded_norm xs)) xs.

Section Collaborators.
(** [process_weights_for_netuid], [convert_weights_and_uids_for_emit] and
    [subtensor.set_weights]; each may raise. *)
Variable process_weights_for_netuid :
  list Z -> list F -> result (list Z * list F).
Variable convert_weights_and_uids_for_emit :
  list Z -> list F -> result (list Z * list Z).
Variable subtensor_set_weights :
  list Z -> list Z -> result (bool * string).

(** The validator as the method leaves it, the trace of collaborator calls
    and how the method ends.  A failure of the shaping step is logged and
    the next statement then reads the unassigned local
    [processed_weight_uids]; a failure of the quantisation is logged and the
    submission then reads the unassigned [uint_uids] inside its own [try];
    what the submission answers is only logged. *)
Definition set_weights (self : Validator)
  : Validator * list call * result unit :=
  if forallb (fun s => feqb s fzero) (scores self) then (self, [], Ok ())
  else
    let raw := raw_weights (scores self) in
    let uids := Metagraph.uids (metagraph self) in
    match process_weights_for_netuid uids raw with
    | Raise _ => (self, [ProcessWeights uids raw], Raise UnboundLocalError)
    | Ok (processed_weight_uids, processed_weights) =>
        let t := [ProcessWeights uids raw;
                  ConvertWeights processed_weight_uids processed_weights] in
        match convert_weights_and_uids_for_emit
                processed_weight_uids processed_weights with
        | Raise _ => (self, t, Ok ())
        | Ok (uint_uids, uint_weights) =>
            let _ := subtensor_set_weights uint_uids uint_weights in
            (self, t ++ [SubtensorSetWeights uint_uids uint_weights], Ok ())
        end
    end.

End Collaborators.

(** *** [resync_metagraph] *)

(** The loop [for uid, hotkey in enumerate(self.hotkeys)], from position
    [uid] on: reading [self.metagraph.hotkeys[uid]] or writing
    [self.scores[uid]] out of range raises, and the writes made before
    stay. *)
Fixpoint zero_replaced (uid : nat) (old new : list string) (sc : list F)
  : list F * result unit :=
  match old with
  | [] => (sc, Ok ())
  | hk :: old' =>
      match new !! uid with
      | None => (sc, Raise IndexError)
      | Some hk' =>
          if decide (hk <> hk') then
            if decide (uid < length sc)%nat
            then zero_replaced (S uid) old' new (<[uid := fzero]> sc)
            else (sc, Raise IndexError)
          else zero_replaced (S uid) old' new sc
      end
  end.

(** The branch taken when the metagraph has more hotkeys than the
    validator: a fresh array of [metagraph.n] zeros receives the first
    [min_len] scores; numpy refuses the slice assignment when the two
    slices differ in length, unless the source is a single score, which it
    broadcasts. *)
Definition grow_scores (new_n : nat) (old_hotkeys : list string)
    (sc : list F) : result (list F) :=
  let min_len := min (length old_hotkeys) (length sc) in
  if decide (min_len <= new_n)%nat
  then Ok (take min_len sc ++ zeros (new_n - min_len))
  else if decide (min_len = 1)%nat then Ok (zeros new_n)
  else Raise ValueError.

(** [synced] is what [self.metagraph.sync(subtensor=self.subtensor)]
    leaves in [self.metagraph]. *)
Definition resync_metagraph (synced : Metagraph.t) (self : Validator)
    : Validator * result unit :=
  let previous_metagraph := metagraph self in
  let self := set_metagraph synced self in
  if decide (Metagraph.axons previous_metagraph = Metagraph.axons synced)
  then (self, Ok ())
  else
    match zero_replaced 0 (hotkeys self) (Metagraph.hotkeys synced) (scores self) with
    | (sc, Raise e) => (set_scores sc self, Raise e)
    | (sc, Ok _) =>
        let self := set_scores sc self in
        if decide (length (hotkeys self) < length (Metagraph.hotkeys synced))%nat
        then
          match grow_scores (Metagraph.n synced) (hotkeys self) sc with
          | Raise e => (self, Raise e)
          | Ok new_moving_average =>
              (set_hotkeys (Metagraph.hotkeys synced)
                 (set_scores new_moving_average self), Ok ())
          end
        else (set_hotkeys (Metagraph.hotkeys synced) self, Ok ())
    end.

(** The validator is in step with its metagraph: it holds the hotkeys of the
    snapshot it last stored and one score for each of them. *)
Definition in_step (self : Validator) : Prop :=
  hotkeys self = Metagraph.hotkeys (metagraph self) /\
  length (scores self) = length (hotkeys self) /\
  Metagraph.wf (metagraph self).

End Engine.

Arguments Validator R F : clear implicits.
Arguments call F : clear implicits.
Arguments nan_free_constants R {_}.

(** ** The response arbiter *)

(** [select_top_result]: the first reply whose [results] has as many items
    as the request asked for; [None] when the loop ends. *)
Fixpoint select_top_result (original_request : BitrecsRequest)
    (miner_results : list BitrecsRequest) : option BitrecsRequest :=
  match miner_results with
  | [] => None
  | r :: rest =>
      if decide (Z.of_nat (length (results r)) = num_results original_request)
      then Some r
      else select_top_result original_request rest
  end.

(** A reply the arbiter accepts. *)
Definition acceptable (original_request r : BitrecsRequest) : Prop :=
  Z.of_nat (length (results r)) = num_results original_request.

(** ** Peer selection and the API branch of [run] *)

(** Modelled from the spec: [clamp] of [template/utils/uids.py], which is
    not among the sources; the spec uses it as [clamp(1, 10, x)], the value
    of [x] brought into the range from [min] to [max]. *)
Definition clamp (min max x : nat) : nat := Nat.max min (Nat.min max x).

Section Dispatch.
Context {R F : Type}.

(** The state of Python's random generator and a draw of [k] items from a
    population that has at least [k]. *)
Variable G : Type.
Variable draw : G -> list Z -> nat -> list Z * G.

(** [random.sample(population, k)]: raises when [k] exceeds the population. *)
Definition random_sample (g : G) (population : list Z) (k : nat)
  : result (list Z) * G :=
  if decide (k <= length population)%nat
  then let '(l, g') := draw g population k in (Ok l, g')
  else (Raise ValueError, g).

(** What [random.sample] promises of a draw it accepts: [k] items, taken
    from the population without replacement. *)
Definition draws_without_replacement : Prop :=
  forall g population k, (k <= length population)%nat ->
    length (draw g population k).1 = k /\ (draw g population k).1 ⊆+ population.

(** [check_uid_availability] of [template/utils/uids.py]. *)
Variable check_uid_availability : Metagraph.t -> Z -> bool.

(** The uids of the metagraph that pass the availability check. *)
Definition available (m : Metagraph.t) : list Z :=
  filter (fun uid => check_uid_availability m uid = true)
         (Z.of_nat <$> seq 0 (Metagraph.n m)).

(** Modelled from the spec: [get_random_uids] of [template/utils/uids.py],
    which is not among the sources; the spec has it filter the membership
    by availability and draw [min(k, |available|)] of the available uids
    without replacement. *)
Definition get_random_uids (g : G) (m : Metagraph.t) (k : nat)
  : result (list Z) * G :=
  let avail := available m in
  random_sample g avail (Nat.min k (length avail)).

(** The two draws at the head of the API branch: [available_uids] from
    [get_random_uids] and [chosen_uids] from [random.sample]. *)
Definition choose_uids (g : G) (m : Metagraph.t) (sample_size : nat)
  : result (list Z) * G :=
  match get_random_uids g m sample_size with
  | (Raise e, g) => (Raise e, g)
  | (Ok available_uids, g) =>
      random_sample g available_uids (clamp 1 10 (length available_uids))
  end.

(** [self.metagraph.axons[uid]] for each chosen uid. *)
Fixpoint chosen_axons (axons : list AxonInfo) (chosen_uids : list Z)
  : result (list AxonInfo) :=
  match chosen_uids with
  | [] => Ok []
  | uid :: rest =>
      i ← array_index (length axons) uid;
      match axons !! i with
      | None => Raise IndexError
      | Some a => l ← chosen_axons axons rest; Ok (a :: l)
      end
  end.

(** [self.dendrite.query(chosen_axons, api_request, ...)]. *)
Variable dendrite_query :
  list AxonInfo -> BitrecsRequest -> result (list BitrecsRequest).

(** How the API branch leaves the loop body: falling through to the rest of
    the iteration, or by [continue]. *)
Inductive flow : Type :=
| FallThrough
| Continue.

(** [api_forward] up to its wait: the object put on [api_queue]. *)
Definition api_forward_submit (synapse : BitrecsRequest) : SynapseWithEvent :=
  {| input_synapse := synapse; event := false; output_synapse := synapse |}.

(** [api_forward] after its wait on [event]: the answer once the event is
    set, [None] while the caller is still blocked. *)
Definition api_forward_result (swe : SynapseWithEvent) : option BitrecsRequest :=
  if event swe then Some (output_synapse swe) else None.

(** The API branch of the loop body, for the dequeued [synapse_with_event]:
    the object as the branch leaves it and how the branch ends. *)
Definition serve_api_request (g : G) (self : Validator R F) (sample_size : nat)
    (synapse_with_event : SynapseWithEvent)
  : SynapseWithEvent * result flow * G :=
  match choose_uids g (metagraph self) sample_size with
  | (Raise e, g) => (synapse_with_event, Raise e, g)
  | (Ok chosen_uids, g) =>
      match chosen_axons (Metagraph.axons (metagraph self)) chosen_uids with
      | Raise e => (synapse_with_event, Raise e, g)
      | Ok axons =>
          let api_request := input_synapse synapse_with_event in
          match dendrite_query axons api_request with
          | Raise e => (synapse_with_event, Raise e, g)
          | Ok responses =>
              match select_top_result api_request responses with
              | None => (synapse_with_event, Ok Continue, g)
              | Some selected_response =>
                  ({| input_synapse := input_synapse synapse_with_event;
                      event := true;
                      output_synapse := selected_response |},
                   Ok FallThrough, g)
              end
          end
      end
  end.

End Dispatch.

(** ** Sample data *)

Definition request (wanted : Z) : BitrecsRequest :=
  {| query := "sku-1"; num_results := wanted; results := []; miner_uid := "" |}.

(** The reply of miner [who] with [count] recommendations. *)
Definition reply (wanted : Z) (count : nat) (who : string) : BitrecsRequest :=
  {| query := "sku-1"; num_results := wanted;
     results := replicate count "sku"; miner_uid := who |}.

Definition axon_of (hk : string) : AxonInfo :=
  {| hotkey := hk; ip := "10.0.0.1"; port := 8091 |}.

(** A metagraph whose neurons have the hotkeys [hks], in order. *)
Definition metagraph_of (hks : list string) : Metagraph.t :=
  {| Metagraph.axons := map axon_of hks;
     Metagraph.hotkeys := hks;
     Metagraph.uids := map Z.of_nat (seq 0 (length hks));
     Metagraph.n := length hks |}.

(** A validator in step with the metagraph of [hks]. *)
Definition validator_of {R F} (hks : list string) (sc : list F) (alpha : R)
  : Validator R F :=
  {| hotkeys := hks; scores := sc; metagraph := metagraph_of hks;
     moving_average_alpha := alpha |}.

(** A generator that draws the head of the population. *)
Definition draw_head (g : unit) (population : list Z) (k : nat)
  : list Z * unit := (take k population, g).

Definition always_available (m : Metagraph.t) (uid : Z) : bool := true.

Definition never_available (m : Metagraph.t) (uid : Z) : bool := false.

(** A transport on which a single miner answers, with [count] items. *)
Definition one_reply (count : nat) (axons : list AxonInfo)
    (r : BitrecsRequest) : result (list BitrecsRequest) :=
  Ok [reply (num_results r) count "miner-0"].

(** The double nearest to 0.2, Python's [0.2]. *)
Definition one_fifth : float := 0x1.999999999999ap-3%float.

(** The largest finite double, [np.finfo(np.float64).max]. *)
Definition float_max : float := 0x1.fffffffffffffp+1023%float.

(** One worker, A, with a score of 0, and alpha = 0.2. *)
Definition worker_A_float : Validator float float :=
  validator_of ["hk-A"] [0%float] one_fifth.

Definition worker_A_exact : Validator xnum xnum :=
  validator_of ["hk-A"] [Fin 0%Qc] (Fin (Q2Qc (1 # 5))).

(** Two workers with scores 0 and 1/2, and alpha = 0.2. *)
Definition two_workers : Validator xnum xnum :=
  validator_of ["hk-A"; "hk-B"] [Fin 0%Qc; Fin (Q2Qc (1 # 2))] (Fin (Q2Qc (1 # 5))).

(** Two workers whose scores are the two zeros of IEEE arithmetic. *)
Definition idle_workers : Validator float float :=
  validator_of ["hk-A"; "hk-B"] [0%float; (-0)%float] one_fifth.

(** Four workers with their scores. *)
Definition four_workers : Validator float float :=
  validator_of ["hk-0"; "hk-1"; "hk-2"; "hk-3"]
    [0.5%float; 0.25%float; 0.125%float; 1%float] one_fifth.

(** The snapshot after the worker at slot 2 was replaced and two joined. *)
Definition six_workers : Metagraph.t :=
  metagraph_of ["hk-0"; "hk-1"; "hk-X"; "hk-3"; "hk-4"; "hk-5"].

(** The snapshot after the last two of the four workers left. *)
Definition two_left : Metagraph.t := metagraph_of ["hk-0"; "hk-1"].

(** Collaborators that shape nothing, give every uid the weight 1 and accept
    the submission. *)
Definition shape_nothing (uids : list Z) (weights : list float)
  : result (list Z * list float) := Ok (uids, weights).

Definition quantize_to_one (uids : list Z) (weights : list float)
  : result (list Z * list Z) := Ok (uids, map (fun _ => 1) weights).

Definition submission_accepted (uids : list Z) (weights : list Z)
  : result (bool * string) := Ok (true, "ok").

(** ** The life cycle of the validator *)

Section Lifecycle.
Context {R F : Type} `{Dtype R} `{Dtype F} `{Cast R F}.

(** [n] dispatch rounds that end with the same rewards for the same uids. *)
Definition update_rounds (n : nat) (rewards : list R) (uids : list Z)
    (self : Validator R F) : Validator R F :=
  Nat.iter n (fun self => (update_scores rewards uids self).1) self.

(** The engine's fields as [__init__] sets them, before its first [sync]:
    a copy of the hotkeys of the metagraph and one zero score per neuron, in
    the dtype [F] it names. *)
Definition __init__ (m : Metagraph.t) (alpha : R) : Validator R F :=
  {| hotkeys := Metagraph.hotkeys m;
     scores := zeros (Metagraph.n m);
     metagraph := m;
     moving_average_alpha := alpha |}.

(** The submissions to the chain among the calls of a trace. *)
Definition submissions (trace : list (call F)) : list (list Z * list Z) :=
  omap (fun c => match c with
                 | SubtensorSetWeights uids weights => Some (uids, weights)
                 | _ => None
                 end) trace.

(** The operations of the dispatch loop on the engine. *)
Inductive operation : Type :=
| UpdateScores (rewards : list R) (uids : list Z)
| ResyncMetagraph (synced : Metagraph.t)
| SetWeights.

Section Operations.
Variable process_weights_for_netuid :
  list Z -> list F -> result (list Z * list F).
Variable convert_weights_and_uids_for_emit :
  list Z -> list F -> result (list Z * list Z).
Variable subtensor_set_weights :
  list Z -> list Z -> result (bool * string).

(** The validator after one operation, whether it raised or not. *)
Definition perform (o : operation) (self : Validator R F) : Validator R F :=
  match o with
  | UpdateScores rewards uids => (update_scores rewards uids self).1
  | ResyncMetagraph synced => (resync_metagraph synced self).1
  | SetWeights =>
      (set_weights process_weights_for_netuid convert_weights_and_uids_for_emit
         subtensor_set_weights self).1.1
  end.

Definition perform_all (os : list operation) (self : Validator R F) : Validator R F :=
  foldl (fun self o => perform o self) self os.

(** The membership never shrinks: every snapshot of the run is well formed
    and has at least the hotkeys the validator holds when it arrives. *)
Fixpoint never_shrinks (os : list operation) (self : Validator R F) : Prop :=
  match os with
  | [] => True
  | o :: os' =>
      match o with
      | ResyncMetagraph synced =>
          Metagraph.wf synced /\
          (length (hotkeys self) <= length (Metagraph.hotkeys synced))%nat
      | _ => True
      end /\ never_shrinks os' (perform o self)
  end.
End Operations.

End Lifecycle.

Arguments operation R : clear implicits.

(** *** The background thread *)











(** *** The dispatch loop *)

Section Loop.
Context {R F : Type}.
Variable G : Type.
Variable draw : G -> list Z -> nat -> list Z * G.
Variable check_uid_availability : Metagraph.t -> Z -> bool.
Variable dendrite_query :
  list AxonInfo -> BitrecsRequest -> result (list BitrecsRequest).
(** [self.concurrent_forward()] and [self.sync()], with the validator they
    leave behind when they raise. *)
Variable concurrent_forward : Validator R F -> Validator R F * result unit.
Variable sync : Validator R F -> Validator R F * result unit.
(** [config.neuron.sample_size], [config.api.enabled], [config.api.exclusive] *)
Variable sample_size : nat.
Variable api_enabled : bool.
Variable api_exclusive : bool.

(** What the loop works on: the validator, its [step], the [api_queue], the
    objects it took off the queue, each as the loop left it, oldest first,
    the seconds it asked [time.sleep] for, and the random generator. *)
Record Loop : Type := {
  neuron : Validator R F;
  step : nat;
  api_queue : list SynapseWithEvent;
  handled : list SynapseWithEvent;
  slept : nat;
  random : G
}.

(** [api_queue.get(timeout=5)]: the oldest entry, if there is one. *)
Definition api_queue_get (q : list SynapseWithEvent)
  : option SynapseWithEvent * list SynapseWithEvent :=
  match q with
  | [] => (None, [])
  | s :: q' => (Some s, q')
  end.

(** The [else] branch of the loop body. *)
Definition synthetic_forward (self : Validator R F) : Validator R F * result flow :=
  if api_exclusive then (self, Ok FallThrough)
  else
    match concurrent_forward self with
    | (self', Ok _) => (self', Ok FallThrough)
    | (self', Raise e) => (self', Raise e)
    end.

(** The sleep of the [finally] clause. *)
Definition finally_sleep : nat := if api_enabled && api_exclusive then 0 else 10.

(** One pass through the body of [while True], [should_exit] being what
    [self.should_exit] reads in this pass; the flag returned tells whether
    [run] returned. *)
Definition run_iteration (should_exit : bool) (st : Loop) : Loop * bool :=
  let '(synapse_with_event, queue) := api_queue_get (api_queue st) in
  let '(self, taken, g, body) :=
    match synapse_with_event with
    | Some swe =>
        if api_enabled then
          let '(swe', r, g) :=
            serve_api_request G draw check_uid_availability dendrite_query
              (random st) (neuron st) sample_size swe in
          (neuron st, [swe'], g, r)
        else
          let '(self, r) := synthetic_forward (neuron st) in
          (self, [swe], random st, r)
    | None =>
        let '(self, r) := synthetic_forward (neuron st) in
        (self, [], random st, r)
    end in
  match body with
  | Raise _ =>
      ({| neuron := self; step := step st; api_queue := queue;
          handled := handled st ++ taken;
          slept := slept st + 60 + finally_sleep; random := g |}, false)
  | Ok Continue =>
      ({| neuron := self; step := step st; api_queue := queue;
          handled := handled st ++ taken;
          slept := slept st + finally_sleep; random := g |}, false)
  | Ok FallThrough =>
      if should_exit then
        ({| neuron := self; step := step st; api_queue := queue;
            handled := handled st ++ taken;
            slept := slept st + finally_sleep; random := g |}, true)
      else
        ({| neuron := (sync self).1; step := S (step st); api_queue := queue;
            handled := handled st ++ taken;
            slept := slept st + finally_sleep; random := g |}, false)
  end.

(** A request that is either unanswered or answered with as many results as
    it asked for. *)
Definition well_answered (swe : SynapseWithEvent) : Prop :=
  event swe = true -> acceptable (input_synapse swe) (output_synapse swe).

(** The loop over a schedule: for each pass, the requests that [api_forward]
    put on the queue since the pass before and the value of [should_exit].
    The passes made are counted. *)
Fixpoint run_loop (schedule : list (list SynapseWithEvent * bool)) (st : Loop)
  : Loop * nat :=
  match schedule with
  | [] => (st, 0%nat)
  | (arrived, should_exit) :: schedule' =>
      let st := {| neuron := neuron st; step := step st;
                   api_queue := api_queue st ++ arrived;
                   handled := handled st; slept := slept st;
                   random := random st |} in
      let '(st', returned) := run_iteration should_exit st in
      if returned then (st', 1%nat)
      else let '(st'', passes) := run_loop schedule' st' in (st'', S passes)
  end.

End Loop.

Arguments Loop R F G : clear implicits.
Arguments neuron {R F G} _.
Arguments step {R F G} _.
Arguments api_queue {R F G} _.
Arguments handled {R F G} _.
Arguments slept {R F G} _.
Arguments random {R F G} _.

(** ** The miner, [src/neurons/miner.py] *)

Module Miner.

(** The members of [LLM] that [warmup] names; [OTHER] stands for any member
    it does not name. *)
Inductive LLM : Type :=
| OLLAMA_LOCAL
| OPEN_ROUTER
| CHAT_GPT
| VLLM
| GEMINI
| GROK
| CLAUDE
| OTHER (member : string).

(** bittensor's [TerminalInfo], with the field the miner reads. *)
Record TerminalInfo : Type := {
  hotkey : option string
}.

(** The [BitrecsRequest] the axon hands to the miner: the fields the
    validator reads, in [request], and the others. *)
Record Synapse : Type := {
  request : BitrecsRequest;
  name : string;
  axon : option TerminalInfo;
  dendrite : option TerminalInfo;
  created_at : string;
  user : string;
  context : string;
  site_key : string;
  models_used : list string;
  miner_hotkey : string
}.

(** A value that [json.loads] returns; an object keeps its keys in order. *)
#[warnings="-register-all"]
Inductive json : Type :=
| JNull
| JBool (b : bool)
| JNumber (literal : string)
| JString (s : string)
| JArray (items : list json)
| JObject (members : list (string * json)).

(** [key in d], [d[key]] and [d[key] = value] on the members of an object:
    a key that is present keeps its place, a new key goes last. *)
Definition dict_contains (key : string) (d : list (string * json)) : bool :=
  existsb (fun kv => String.eqb kv.1 key) d.

Fixpoint dict_get (key : string) (d : list (string * json)) : option json :=
  match d with
  | [] => None
  | (k, v) :: d' => if String.eqb k key then Some v else dict_get key d'
  end.

Fixpoint dict_set (key : string) (value : json) (d : list (string * json))
  : list (string * json) :=
  match d with
  | [] => [(key, value)]
  | (k, v) :: d' =>
      if String.eqb k key then (k, value) :: d' else (k, v) :: dict_set key value d'
  end.

(** Python's [len] of a [str]: the number of its characters.  A string is
    held as the bytes of its UTF-8 encoding, in which every character has
    one byte that is not of the form [10xxxxxx], its first. *)
Definition continuation_byte (a : Ascii.ascii) : bool :=
  match a with
  | Ascii.Ascii _ _ _ _ _ _ b6 b7 => b7 && negb b6
  end.

Fixpoint len (s : string) : nat :=
  match s with
  | EmptyString => 0%nat
  | String a s' => if continuation_byte a then len s' else S (len s')
  end.

Section Miner.
(** The type of [metagraph.S] and of a priority. *)
Context {F : Type}.

(** What the miner reads of itself: its uid, [model], [llm_provider], the
    request counter, the address of its hotkey, [metagraph.hotkeys],
    [metagraph.validator_permit] and [metagraph.S], and of its
    configuration [blacklist.allow_non_registered],
    [blacklist.force_validator_permit] and [llm.model]. *)
Record t : Type := {
  uid : Z;
  model : string;
  llm_provider : LLM;
  total_request_in_interval : nat;
  ss58_address : string;
  hotkeys : list string;
  validator_permit : list bool;
  stake : list F;
  allow_non_registered : bool;
  force_validator_permit : bool;
  llm_model : option string
}.

(** [l.index(x)]: the first position of [x], [None] for [ValueError]. *)
Fixpoint list_index (x : string) (l : list string) : option nat :=
  match l with
  | [] => None
  | y :: l' => if String.eqb y x then Some 0%nat else S <$> list_index x l'
  end.

Definition blacklist (self : t) (synapse : Synapse) : result (bool * string) :=
  match dendrite synapse with
  | None => Ok (true, "Missing dendrite or hotkey")
  | Some d =>
      match hotkey d with
      | None => Ok (true, "Missing dendrite or hotkey")
      | Some hk =>
          match list_index hk (hotkeys self) with
          | None => Raise ValueError
          | Some uid =>
              if negb (allow_non_registered self)
                 && negb (bool_decide (hk ∈ hotkeys self))
              then Ok (true, "Unrecognized hotkey")
              else if force_validator_permit self then
                match validator_permit self !! uid with
                | None => Raise IndexError
                | Some permit =>
                    if negb permit then Ok (true, "Non-validator hotkey")
                    else Ok (false, "Hotkey recognized!")
                end
              else Ok (false, "Hotkey recognized!")
          end
      end
  end.

(** [zero] is the float [0.0]. *)
Definition priority (zero : F) (self : t) (synapse : Synapse) : result F :=
  match dendrite synapse with
  | None => Ok zero
  | Some d =>
      match hotkey d with
      | None => Ok zero
      | Some hk =>
          match list_index hk (hotkeys self) with
          | None => Raise ValueError
          | Some caller_uid =>
              match stake self !! caller_uid with
              | None => Raise IndexError
              | Some s => Ok s
              end
          end
      end
  end.

(** [LLMFactory.query_llm(server, model, system_prompt, temp, user_prompt)] *)
Variable query_llm : LLM -> string -> string -> Q -> string -> result string.


(** [if self.config.llm.model and len(self.config.llm.model) > 2] *)
Definition overrides (configured : option string) : option string :=
  match configured with
  | Some m => if (2 <? len m)%nat then Some m else None
  | None => None
  end.



(** What the language model returns for one recommendation, and [str] of
    it; a [UserProfile]. *)
Variable Item : Type.
Variable str : Item -> string.
Variable UserProfile : Type.

(** [PromptFactory(sku, context, num_recs, debug, profile).generate_prompt()]
    and [PromptFactory.tryparse_llm]. *)
Variable generate_prompt :
  string -> string -> Z -> bool -> UserProfile -> result string.
Variable tryparse_llm : string -> result (list Item).

Definition do_work (user_prompt context : string) (num_recs : Z) (server : LLM)
    (model : string) (profile : UserProfile) (debug_prompts : bool)
  : result (list Item) :=
  prompt ← generate_prompt user_prompt context num_recs debug_prompts profile;
  match query_llm server model "You are a helpful assistant." 0 prompt with
  | Raise _ => Ok []
  | Ok llm_response =>
      if (len llm_response <? 10)%nat then Ok []
      else
        match tryparse_llm llm_response with
        | Raise _ => Ok []
        | Ok parsed_recs => Ok parsed_recs
        end
  end.

(** [json.loads] ([None] for [JSONDecodeError]), [json_repair.repair_json]
    ([None] when it raises), [str] of a loaded value,
    [CONST.RE_PRODUCT_NAME.sub("", _)], [CONST.RE_REASON.sub("", _)] and
    [json.dumps(_, separators=(',', ':'))]. *)
Variable json_loads : string -> option json.
Variable repair_json : string -> option string.
Variable str_json : json -> string.
Variable re_product_name_sub : string -> string.
Variable re_reason_sub : string -> string.
Variable json_dumps : json -> string.

(** The inner [try] of the clean-up: the item as it loads, repaired first
    when it does not load as it is. *)
Definition load_item (item_str : string) : option json :=
  match json_loads item_str with
  | Some dictionary_item => Some dictionary_item
  | None =>
      match repair_json item_str with
      | Some repaired => json_loads repaired
      | None => None
      end
  end.

(** One turn of the clean-up loop: the recommendation appended, or [None]
    when the turn ends by [continue].  A loaded value that is not an object
    either has no ["name"] in it or raises [TypeError] at ["name" in _] or
    at [_["name"]], which the outer [except] turns into [continue]. *)
Definition clean_item (item : Item) : option string :=
  match load_item (str item) with
  | Some (JObject d) =>
      match dict_get "name" d with
      | None => None
      | Some name =>
          let d := dict_set "name" (JString (re_product_name_sub (str_json name))) d in
          let d :=
            match dict_get "reason" d with
            | Some reason =>
                dict_set "reason" (JString (re_reason_sub (str_json reason))) d
            | None => d
            end in
          Some (json_dumps (JObject d))
      end
  | _ => None
  end.

(** A recommendation that leaves the clean-up: the dump of an object whose
    name is a string that went through the substitution for names, and
    whose reason, if it has one, went through the one for reasons. *)
Definition cleaned (recommendation : string) : Prop :=
  exists d name,
    recommendation = json_dumps (JObject d) /\
    dict_get "name" d = Some (JString (re_product_name_sub name)) /\
    forall v, dict_get "reason" d = Some v ->
              exists reason, v = JString (re_reason_sub reason).

(** [UserProfile.tryparse_profile] and the time of the reply, formatted. *)
Variable tryparse_profile : string -> result UserProfile.
Variable utc_now : string.
(** [config.logging.trace] *)
Variable trace : bool.

Definition count_request (self : t) : t :=
  {| uid := uid self; model := model self; llm_provider := llm_provider self;
     total_request_in_interval := S (total_request_in_interval self);
     ss58_address := ss58_address self; hotkeys := hotkeys self;
     validator_permit := validator_permit self; stake := stake self;
     allow_non_registered := allow_non_registered self;
     force_validator_permit := force_validator_permit self;
     llm_model := llm_model self |}.

Definition forward (self : t) (synapse : Synapse) : t * result Synapse :=
  match tryparse_profile (user synapse) with
  | Raise e => (self, Raise e)
  | Ok user_profile =>
      let num_recs := num_results (request synapse) in
      let results :=
        match do_work (query (request synapse)) (context synapse) num_recs
                (llm_provider self) (model self) user_profile trace with
        | Ok results => results
        | Raise _ => []
        end in
      let final_results := omap clean_item results in
      let output_synapse :=
        {| request :=
             {| query := query (request synapse);
                num_results := num_recs;
                results := final_results;
                miner_uid := pretty (uid self) |};
           name := name synapse;
           axon := axon synapse;
           dendrite := dendrite synapse;
           created_at := utc_now;
           user := "";
           context := "[]";
           site_key := site_key synapse;
           models_used := [model self];
           miner_hotkey := ss58_address self |} in
      (count_request self, Ok output_synapse)
  end.

End Miner.

Arguments t F : clear implicits.

End Miner.

(** ** More sample data *)

(** The validator of one worker, A, as [__init__] leaves it: a float32
    score of 0 next to alpha = 0.2, a Python float. *)
Definition worker_A : Validator float float32 :=
  __init__ (metagraph_of ["hk-A"]) one_fifth.

(** The float32 nearest to 0.2, [np.float32(0.2)]; as a double it is
    0.20000000298023224. *)
Definition one_fifth_float32 : float32 := S754_finite false 13421773 (-26).


(** A synthetic round and a sync that change nothing. *)
Definition quiet_forward (self : Validator float float) : Validator float float * result unit :=
  (self, Ok ()).

Definition quiet_sync (self : Validator float float) : Validator float float * result unit :=
  (self, Ok ()).

(** A loop about to start, with one request for five results on the queue. *)
Definition loop_with_request : Loop float float unit :=
  {| neuron := four_workers; step := 0;
     api_queue := [api_forward_submit (request 5)];
     handled := []; slept := 0; random := () |}.

(** Two passes; a request for three results arrives before the second. *)
Definition two_passes : list (list SynapseWithEvent * bool) :=
  [([], false); ([api_forward_submit (request 3)], false)].

(** A miner of a metagraph in which two neurons share the hotkey hk-1. *)
Definition sample_miner : Miner.t float :=
  {| Miner.uid := 7; Miner.model := ""; Miner.llm_provider := Miner.OPEN_ROUTER;
     Miner.total_request_in_interval := 0; Miner.ss58_address := "5Gminer";
     Miner.hotkeys := ["hk-0"; "hk-1"; "hk-1"];
     Miner.validator_permit := [false; true; false];
     Miner.stake := [10%float; 200%float; 5%float];
     Miner.allow_non_registered := false;
     Miner.force_validator_permit := true;
     Miner.llm_model := Some "m7" |}.

(** A request for five results from the caller with the hotkey [hk]. *)
Definition synapse_from (hk : string) : Miner.Synapse :=
  {| Miner.request := request 5; Miner.name := "BitrecsRequest";
     Miner.axon := None;
     Miner.dendrite := Some {| Miner.hotkey := Some hk |};
     Miner.created_at := ""; Miner.user := "{}"; Miner.context := "[]";
     Miner.site_key := ""; Miner.models_used := []; Miner.miner_hotkey := "" |}.

(** A language model that answers every query with the same text. *)
Definition canned_llm (answer : string) (server : Miner.LLM)
    (model system_prompt : string) (temp : Q) (user_prompt : string)
  : result string := Ok answer.

(** A toy parser: every text but "junk" loads as an object with that
    name; nothing is repaired; the dump of such an object is its name. *)
Definition toy_loads (text : string) : option Miner.json :=
  if String.eqb text "junk" then None
  else Some (Miner.JObject [("name", Miner.JString text)]).

Definition toy_repair (text : string) : option string := None.

Definition toy_str (j : Miner.json) : string :=
  match j with
  | Miner.JString text => text
  | _ => ""
  end.

Definition toy_dumps (j : Miner.json) : string :=
  match j with
  | Miner.JObject ((_, Miner.JString text) :: _) => text
  | _ => ""
  end.

Definition toy_prompt (sku ctx : string) (num_recs : Z) (debug : bool)
    (profile : unit) : result string := Ok sku.

(** A parse that always finds the same five recommendations. *)
Definition toy_parse (answer : string) : result (list string) :=
  Ok ["sku-2"; "sku-3"; "sku-4"; "sku-5"; "sku-6"].

Definition toy_profile (user : string) : result unit := Ok ().

(** The reply of [sample_miner] to the request of hk-1 when the model's
    five recommendations all pass the clean-up. *)
Definition sample_reply : Miner.Synapse :=
  {| Miner.request :=
       {| query := "sku-1"; num_results := 5;
          results := ["sku-2"; "sku-3"; "sku-4"; "sku-5"; "sku-6"];
          miner_uid := "7" |};
     Miner.name := "BitrecsRequest"; Miner.axon := None;
     Miner.dendrite := Some {| Miner.hotkey := Some "hk-1" |};
     Miner.created_at := "2026-01-01T00:00:00"; Miner.user := "";
     Miner.context := "[]"; Miner.site_key := ""; Miner.models_used := [""];
     Miner.miner_hotkey := "5Gminer" |}.

(** ** The response arbiter *)

Lemma select_top_result_Some req rs r :
  select_top_result req rs = Some r <->
  exists i, rs !! i = Some r /\ acceptable req r /\
    forall j r', (j < i)%nat -> rs !! j = Some r' -> ~ acceptable req r'.
Proof.
  unfold acceptable. induction rs as [|a rs IH]; simpl.
  - split; [discriminate|]. intros (i & Hi & _). by destruct i.
  - destruct (decide (Z.of_nat (length (results a)) = num_results req)) as [Ha|Ha].
    + split.
      * intros [= <-]. exists 0%nat. repeat split; [done|]. intros j r' Hj. lia.
      * intros (i & Hi & Hr & Hmin). destruct i as [|i]; [by simpl in Hi|].
        exfalso. apply (Hmin 0%nat a); [lia|done|done].
    + rewrite IH. split.
      * intros (i & Hi & Hr & Hmin). exists (S i). repeat split; [done..|].
        intros [|j] r' Hj Hr'; simpl in Hr'.
        -- by injection Hr' as <-.
        -- apply (Hmin j r'); [lia|done].
      * intros (i & Hi & Hr & Hmin). destruct i as [|i]; simpl in Hi.
        -- injection Hi as <-. done.
        -- exists i. repeat split; [done..|]. intros j r' Hj Hr'.
           apply (Hmin (S j) r'); [lia|done].
Qed.

Lemma select_top_result_None req rs :
  select_top_result req rs = None <-> Forall (fun r => ~ acceptable req r) rs.
Proof.
  unfold acceptable. induction rs as [|a rs IH]; simpl.
  - split; [constructor|done].
  - destruct (decide _) as [Ha|Ha].
    + split; [discriminate|]. intros Hall. by inversion Hall.
    + rewrite IH. split; [by constructor|]. intros Hall. by inversion Hall.
Qed.

(** C2.  The arbiter returns the first reply whose result list has exactly
    the requested number of items (a reply at a position before which no
    reply is acceptable), and nothing when no reply has that many; of three
    replies with 3, 5 and 5 items for a request of 5 it returns the second,
    the one at index 1. *)
Theorem select_top_result_first_acceptable
    (original_request : BitrecsRequest) (miner_results : list BitrecsRequest) :
  (forall r, select_top_result original_request miner_results = Some r <->
     exists i, miner_results !! i = Some r /\ acceptable original_request r /\
       forall j r', (j < i)%nat -> miner_results !! j = Some r' ->
                    ~ acceptable original_request r') /\
  (select_top_result original_request miner_results = None <->
     Forall (fun r => ~ acceptable original_request r) miner_results) /\
  (forall r0 r1 r2,
     num_results original_request = 5 ->
     length (results r0) = 3%nat -> length (results r1) = 5%nat ->
     length (results r2) = 5%nat ->
     select_top_result original_request [r0; r1; r2] = Some r1).
Proof.
  split; [|split].
  - intros r. apply select_top_result_Some.
  - apply select_top_result_None.
  - intros r0 r1 r2 Hn H0 H1 H2. simpl. rewrite H0, H1, Hn.
    destruct (decide _) as [?|_]; [lia|]. destruct (decide _) as [_|?]; [done|lia].
Qed.

Lemma select_top_result_first_acceptable_witness :
  select_top_result (request 5)
    [reply 5 3 "miner-0"; reply 5 5 "miner-1"; reply 5 5 "miner-2"]
  = Some (reply 5 5 "miner-1") /\
  reply 5 5 "miner-1" <> reply 5 5 "miner-2".
Proof.
  split; [|discriminate].
  apply (select_top_result_first_acceptable (request 5) []); reflexivity.
Defined.

(** ** Peer selection and the API branch *)

Section DispatchFacts.
Context {R F : Type}.
Variable G : Type.
Variable draw : G -> list Z -> nat -> list Z * G.
Variable check_uid_availability : Metagraph.t -> Z -> bool.
Variable dendrite_query :
  list AxonInfo -> BitrecsRequest -> result (list BitrecsRequest).

Hypothesis draw_spec : draws_without_replacement G draw.

Lemma random_sample_Ok g population k :
  (k <= length population)%nat ->
  exists l g', random_sample G draw g population k = (Ok l, g') /\
    length l = k /\ l ⊆+ population.
Proof.
  intros Hk. unfold random_sample. destruct (decide _) as [_|?]; [|lia].
  destruct (draw_spec g population k Hk) as [Hlen Hsub].
  destruct (draw g population k) as [l g']. by exists l, g'.
Qed.

Lemma random_sample_Raise g population k :
  (length population < k)%nat ->
  random_sample G draw g population k = (Raise ValueError, g).
Proof. intros Hk. unfold random_sample. destruct (decide _); [lia|done]. Qed.

Lemma available_NoDup m : NoDup (available check_uid_availability m).
Proof.
  unfold available. apply list.NoDup_filter, NoDup_fmap_2, NoDup_seq.
  intros x y. lia.
Qed.

Lemma submseteq_NoDup {A} (l k : list A) : l ⊆+ k -> NoDup k -> NoDup l.
Proof.
  intros (k' & Hsub & Hperm)%submseteq_sublist_l Hk.
  eapply sublist_NoDup; [|exact Hsub]. by rewrite Hperm.
Qed.

(** With at least one available worker and a sample size of at least one,
    the two draws give [clamp(1, 10, min(k, a))] distinct available uids. *)
Lemma choose_uids_available g m k :
  (1 <= k)%nat -> available check_uid_availability m <> [] ->
  exists l g',
    choose_uids G draw check_uid_availability g m k = (Ok l, g') /\
    length l = clamp 1 10 (Nat.min k (length (available check_uid_availability m))) /\
    NoDup l /\ l ⊆ available check_uid_availability m.
Proof.
  intros Hk Hav. unfold choose_uids, get_random_uids.
  set (avail := available check_uid_availability m) in *.
  assert (0 < length avail)%nat as Ha by (destruct avail; [done|simpl; lia]).
  destruct (random_sample_Ok g avail (Nat.min k (length avail)))
    as (l1 & g1 & -> & Hl1 & Hs1); [lia|].
  destruct (random_sample_Ok g1 l1 (clamp 1 10 (length l1)))
    as (l2 & g2 & -> & Hl2 & Hs2); [unfold clamp; lia|].
  exists l2, g2. rewrite Hl2, Hl1. repeat split.
  - apply (submseteq_NoDup l2 avail); [by etrans|apply available_NoDup].
  - intros x Hx. eapply elem_of_submseteq; [|exact Hs1].
    eapply elem_of_submseteq; [exact Hx|exact Hs2].
Qed.

(** C9.  With no available worker the selection does not return an empty
    set: [get_random_uids] hands back an empty array and [random.sample] is
    then asked for [clamp(1, 10, 0) = 1] item of it, which raises. *)
Theorem choose_uids_none_available g m k :
  available check_uid_availability m = [] ->
  (choose_uids G draw check_uid_availability g m k).1 = Raise ValueError.
Proof.
  intros Hav. unfold choose_uids, get_random_uids. rewrite Hav.
  destruct (random_sample_Ok g [] (Nat.min k (length (@nil Z))))
    as (l1 & g1 & -> & Hl1 & _); [simpl; lia|].
  rewrite random_sample_Raise; [done|].
  rewrite Hl1. unfold clamp. simpl. lia.
Qed.

(** The event of a request that enters the API branch unset is set exactly
    when the branch falls through to the rest of the iteration. *)
Lemma serve_api_request_event g (self : Validator R F) sample_size swe :
  event swe = false ->
  let '(swe', r, _) :=
    serve_api_request G draw check_uid_availability dendrite_query
      g self sample_size swe in
  event swe' = true <-> r = Ok FallThrough.
Proof.
  intros He. unfold serve_api_request.
  destruct (choose_uids _ _ _ _ _ _) as [[chosen|e] g1]; [|by rewrite He].
  destruct (chosen_axons _ _) as [axons|e]; [|by rewrite He].
  destruct (dendrite_query _ _) as [responses|e]; [|by rewrite He].
  destruct (select_top_result _ _); simpl; [done|by rewrite He].
Qed.

(** C1.  When the arbiter finds no acceptable reply the API branch ends by
    [continue] and leaves the request as it found it: its event is not set
    and its result slot is not written, so [api_forward] stays blocked. *)
Theorem serve_api_request_no_winner g (self : Validator R F) sample_size swe
    chosen g' axons responses :
  event swe = false ->
  choose_uids G draw check_uid_availability g (metagraph self) sample_size
    = (Ok chosen, g') ->
  chosen_axons (Metagraph.axons (metagraph self)) chosen = Ok axons ->
  dendrite_query axons (input_synapse swe) = Ok responses ->
  select_top_result (input_synapse swe) responses = None ->
  serve_api_request G draw check_uid_availability dendrite_query
    g self sample_size swe = (swe, Ok Continue, g') /\
  api_forward_result swe = None.
Proof.
  intros He Hc Ha Hq Hs. unfold serve_api_request, api_forward_result.
  by rewrite Hc, Ha, Hq, Hs, He.
Qed.

End DispatchFacts.

(** ** Membership resync *)

Section ResyncFacts.
Context {R F : Type} `{Dtype F}.

(** What the slot [j] holds after the loop over the old hotkeys that starts
    at position [uid]. *)
Lemma zero_replaced_lookup old : forall uid new (sc sc' : list F) r,
  zero_replaced uid old new sc = (sc', r) ->
  (uid + length old <= length sc)%nat ->
  length sc' = length sc /\
  forall j, sc' !! j =
    if decide (uid <= j)%nat then
      match old !! (j - uid)%nat, new !! j with
      | Some hk, Some hk' => if decide (hk = hk') then sc !! j else Some fzero
      | _, _ => sc !! j
      end
    else sc !! j.
Proof.
  induction old as [|hk old IH]; intros uid new sc sc' r Hz Hlen; simpl in *.
  - injection Hz as <- <-. split; [done|]. intros j. by destruct (decide _).
  - destruct (new !! uid) as [hk'|] eqn:Hnew.
    + destruct (decide (hk <> hk')) as [Hne|Heq].
      * destruct (decide (uid < length sc)%nat) as [Hlt|?]; [|lia].
        apply IH in Hz as [Hl Hj]; [|rewrite length_insert; lia].
        rewrite length_insert in Hl. split; [done|]. intros j. rewrite Hj.
        destruct (decide (S uid <= j)%nat) as [Hsj|Hsj].
        -- destruct (decide (uid <= j)%nat) as [_|?]; [|lia].
           replace (j - uid)%nat with (S (j - S uid)) by lia. simpl.
           rewrite list_lookup_insert_ne by lia. done.
        -- destruct (decide (uid <= j)%nat) as [Huj|Huj].
           ++ assert (j = uid) as -> by lia.
              rewrite Nat.sub_diag. simpl. rewrite Hnew.
              destruct (decide (hk = hk')) as [?|_]; [done|].
              by apply list_lookup_insert_eq.
           ++ by rewrite list_lookup_insert_ne by lia.
      * apply dec_stable in Heq as <-.
        apply IH in Hz as [Hl Hj]; [|lia]. split; [done|]. intros j.
        rewrite Hj. destruct (decide (S uid <= j)%nat) as [Hsj|Hsj].
        -- destruct (decide (uid <= j)%nat) as [_|?]; [|lia].
           by replace (j - uid)%nat with (S (j - S uid)) by lia.
        -- destruct (decide (uid <= j)%nat) as [Huj|Huj]; [|done].
           assert (j = uid) as -> by lia.
           rewrite Nat.sub_diag. simpl. rewrite Hnew.
           by destruct (decide (hk = hk)).
    + injection Hz as <- <-. split; [done|]. intros j.
      destruct (decide (uid <= j)%nat) as [Huj|Huj]; [|done].
      apply lookup_ge_None in Hnew.
      rewrite (proj2 (lookup_ge_None new j)) by lia.
      by destruct ((hk :: old) !! (j - uid)%nat).
Qed.

(** The loop ends normally when every old slot exists in the new list. *)
Lemma zero_replaced_Ok old : forall uid new (sc : list F),
  (uid + length old <= length sc)%nat ->
  (uid + length old <= length new)%nat ->
  (zero_replaced uid old new sc).2 = Ok ().
Proof.
  induction old as [|hk old IH]; intros uid new sc Hsc Hnew; simpl in *; [done|].
  destruct (new !! uid) as [hk'|] eqn:Hl.
  - destruct (decide (hk <> hk')).
    + destruct (decide (uid < length sc)%nat); [|lia].
      apply IH; [rewrite length_insert|]; lia.
    + apply IH; lia.
  - apply lookup_ge_None in Hl. lia.
Qed.

(** The loop raises as soon as an old slot lies beyond the new list. *)
Lemma zero_replaced_Raise old : forall uid new (sc : list F),
  old <> [] -> (length new < uid + length old)%nat ->
  (zero_replaced uid old new sc).2 = Raise IndexError.
Proof.
  induction old as [|hk old IH]; intros uid new sc Hold Hnew; simpl in *; [done|].
  destruct (new !! uid) as [hk'|] eqn:Hl; [|done].
  apply lookup_lt_Some in Hl.
  assert (old <> []) by (destruct old; [simpl in *; lia|done]).
  destruct (decide (hk <> hk')).
  - destruct (decide (uid < length sc)%nat); [|done]. apply IH; [done|lia].
  - apply IH; [done|lia].
Qed.

Lemma zero_replaced_length old : forall uid new (sc : list F),
  length (zero_replaced uid old new sc).1 = length sc.
Proof.
  induction old as [|hk old IH]; intros uid new sc; simpl; [done|].
  destruct (new !! uid) as [hk'|]; [|done].
  destruct (decide (hk <> hk')); [|apply IH].
  destruct (decide (uid < length sc)%nat); [|done].
  by rewrite IH, length_insert.
Qed.

(** Against an identical list of hotkeys the loop writes nothing. *)
Lemma zero_replaced_same old : forall uid pre (sc : list F),
  length pre = uid ->
  zero_replaced uid old (pre ++ old) sc = (sc, Ok ()).
Proof.
  induction old as [|hk old IH]; intros uid pre sc Hpre; simpl; [done|].
  rewrite list_lookup_middle by done.
  destruct (decide (hk <> hk)); [done|].
  rewrite (cons_middle hk pre old), app_assoc. apply IH.
  rewrite length_app. simpl. lia.
Qed.

(** C6.  For a validator in step with its metagraph and a well-formed new
    snapshot: an unchanged hotkey list leaves every score as it was; a slot
    whose hotkey changed holds 0 afterwards and a slot whose hotkey is
    unchanged keeps its score; when the membership grew from [m] to [n] the
    resync succeeds, the score vector has length [n] and holds 0 at the
    indices from [m] to [n - 1]. *)
Theorem resync_metagraph_scores (synced : Metagraph.t) (self : Validator R F) :
  in_step self -> Metagraph.wf synced ->
  let '(self', r) := resync_metagraph synced self in
  (Metagraph.hotkeys synced = hotkeys self -> scores self' = scores self) /\
  (forall i hk hk',
     hotkeys self !! i = Some hk -> Metagraph.hotkeys synced !! i = Some hk' ->
     scores self' !! i = if decide (hk = hk') then scores self !! i else Some fzero) /\
  ((length (hotkeys self) < length (Metagraph.hotkeys synced))%nat ->
     r = Ok () /\
     hotkeys self' = Metagraph.hotkeys synced /\
     length (scores self') = length (Metagraph.hotkeys synced) /\
     forall i, (length (hotkeys self) <= i < length (Metagraph.hotkeys synced))%nat ->
               scores self' !! i = Some fzero).
Proof.
  intros (Hhk & Hlen & Hwf & _) (Hwf' & Hn). unfold resync_metagraph. simpl.
  destruct (decide (Metagraph.axons (metagraph self) = Metagraph.axons synced))
    as [Hax|Hax].
  - assert (Metagraph.hotkeys synced = hotkeys self) as Hsame
      by (by rewrite Hhk, Hwf, Hwf', Hax).
    simpl. split; [done|]. split; [|rewrite Hsame; lia].
    intros i hk hk' Hi Hi'. rewrite Hsame, Hi in Hi'. injection Hi' as <-.
    by destruct (decide (hk = hk)).
  - destruct (zero_replaced 0 (hotkeys self) (Metagraph.hotkeys synced) (scores self))
      as [sc r] eqn:Hz.
    pose proof (zero_replaced_lookup _ _ _ _ _ _ Hz) as [Hl Hj]; [simpl; lia|].
    assert (forall i hk hk',
      hotkeys self !! i = Some hk -> Metagraph.hotkeys synced !! i = Some hk' ->
      sc !! i = if decide (hk = hk') then scores self !! i else Some fzero) as Hslot.
    { intros i hk hk' Hi Hi'. rewrite Hj. simpl. rewrite Nat.sub_0_r, Hi, Hi'.
      done. }
    destruct r as [[]|e]; simpl.
    + destruct (decide (length (hotkeys self) < length (Metagraph.hotkeys synced))%nat)
        as [Hgrow|Hgrow].
      * unfold grow_scores. rewrite Hl, Hlen, Nat.min_id, Hn.
        destruct (decide _) as [_|?]; [|lia]. simpl. split; [|split].
        -- intros Hsame. rewrite Hsame in Hgrow. lia.
        -- intros i hk hk' Hi Hi'. pose proof (lookup_lt_Some _ _ _ Hi).
           rewrite lookup_app_l by (rewrite length_take; lia).
           rewrite lookup_take_lt by lia. by apply Hslot.
        -- intros _. split; [done|]. split; [done|]. split.
           ++ rewrite length_app, length_take. unfold zeros.
              rewrite length_replicate. lia.
           ++ intros i Hi. rewrite lookup_app_r by (rewrite length_take; lia).
              rewrite length_take. apply lookup_replicate_2. lia.
      * simpl. split; [|split; [exact Hslot|lia]].
        intros Hsame. rewrite Hsame in Hz.
        pose proof (zero_replaced_same (hotkeys self) 0 [] (scores self) eq_refl) as Hs.
        simpl in Hs. rewrite Hs in Hz.
        by injection Hz as <-.
    + split; [|split; [exact Hslot|]].
      * intros Hsame. rewrite Hsame in Hz.
        pose proof (zero_replaced_same (hotkeys self) 0 [] (scores self) eq_refl) as Hs.
        simpl in Hs. rewrite Hs in Hz.
        by injection Hz as <-.
      * intros Hgrow.
        pose proof (zero_replaced_Ok (hotkeys self) 0 (Metagraph.hotkeys synced)
                      (scores self)) as Hok.
        rewrite Hz in Hok. simpl in Hok. discriminate Hok; lia.
Qed.

(** A resync that succeeds leaves the validator in step with the snapshot. *)
Lemma resync_metagraph_in_step (synced : Metagraph.t) (self : Validator R F) :
  in_step self -> Metagraph.wf synced ->
  (length (hotkeys self) <= length (Metagraph.hotkeys synced))%nat ->
  (resync_metagraph synced self).2 = Ok () /\
  in_step (resync_metagraph synced self).1.
Proof.
  intros (Hhk & Hlen & Hwf & Hwn) (Hwf' & Hn) Hle. unfold resync_metagraph. simpl.
  destruct (decide (Metagraph.axons (metagraph self) = Metagraph.axons synced))
    as [Hax|Hax]; simpl.
  - split; [done|]. unfold in_step, Metagraph.wf. simpl.
    repeat split; [|done..]. by rewrite Hhk, Hwf, Hax, Hwf'.
  - pose proof (zero_replaced_Ok (hotkeys self) 0 (Metagraph.hotkeys synced)
                  (scores self)) as Hok.
    pose proof (zero_replaced_length (hotkeys self) 0 (Metagraph.hotkeys synced)
                  (scores self)) as Hl.
    destruct (zero_replaced 0 _ _ _) as [sc r]. simpl in *.
    rewrite Hok by lia.
    destruct (decide (length (hotkeys self) < length (Metagraph.hotkeys synced))%nat)
      as [Hgrow|Hgrow]; simpl.
    + unfold grow_scores. rewrite Hl, Hlen, Nat.min_id, Hn.
      destruct (decide _) as [_|?]; [|lia]. simpl. split; [done|].
      unfold in_step, Metagraph.wf. simpl. repeat split; [|done..].
      rewrite length_app, length_take. unfold zeros. rewrite length_replicate. lia.
    + split; [done|]. unfold in_step, Metagraph.wf. simpl.
      repeat split; [lia|done..].
Qed.

(** When the new snapshot has fewer hotkeys than the validator holds and the
    axon list changed, the loop over the old hotkeys runs off the new list. *)
Lemma resync_metagraph_shrink_raises (synced : Metagraph.t) (self : Validator R F) :
  (length (Metagraph.hotkeys synced) < length (hotkeys self))%nat ->
  Metagraph.axons (metagraph self) <> Metagraph.axons synced ->
  (resync_metagraph synced self).2 = Raise IndexError /\
  hotkeys (resync_metagraph synced self).1 = hotkeys self /\
  length (scores (resync_metagraph synced self).1) = length (scores self).
Proof.
  intros Hshrink Hax. unfold resync_metagraph. simpl.
  destruct (decide _) as [?|_]; [done|].
  pose proof (zero_replaced_Raise (hotkeys self) 0 (Metagraph.hotkeys synced)
                (scores self)) as Hr.
  pose proof (zero_replaced_length (hotkeys self) 0 (Metagraph.hotkeys synced)
                (scores self)) as Hl.
  destruct (zero_replaced 0 _ _ _) as [sc r]. simpl in *.
  rewrite Hr; [done| |lia]. intros Hnil. rewrite Hnil in Hshrink. simpl in *. lia.
Qed.

(** No resync shortens the score vector of a validator in step with its
    metagraph. *)
Lemma resync_metagraph_never_shortens (synced : Metagraph.t) (self : Validator R F) :
  in_step self -> Metagraph.wf synced ->
  (length (scores self) <= length (scores (resync_metagraph synced self).1))%nat.
Proof.
  intros (Hhk & Hlen & Hwf & Hwn) (Hwf' & Hn). unfold resync_metagraph. simpl.
  destruct (decide _) as [?|_]; [done|].
  pose proof (zero_replaced_length (hotkeys self) 0 (Metagraph.hotkeys synced)
                (scores self)) as Hl.
  destruct (zero_replaced 0 _ _ _) as [sc [[]|e]]; simpl in *; [|lia].
  destruct (decide _) as [Hgrow|_]; simpl; [|lia].
  unfold grow_scores. rewrite Hl, Hlen, Nat.min_id, Hn.
  destruct (decide _) as [_|?]; [|lia]. simpl.
  rewrite length_app, length_take. unfold zeros. rewrite length_replicate. lia.
Qed.

(** C10.  When the new snapshot has fewer hotkeys than the validator holds
    and the axon list changed, the resync raises [IndexError] and leaves the
    stored hotkeys and the length of the score vector as they were; and no
    resync of a validator in step with its metagraph shortens the score
    vector. *)
Theorem resync_metagraph_shrink (synced : Metagraph.t) (self : Validator R F) :
  ((length (Metagraph.hotkeys synced) < length (hotkeys self))%nat ->
   Metagraph.axons (metagraph self) <> Metagraph.axons synced ->
   (resync_metagraph synced self).2 = Raise IndexError /\
   hotkeys (resync_metagraph synced self).1 = hotkeys self /\
   length (scores (resync_metagraph synced self).1) = length (scores self)) /\
  (in_step self -> Metagraph.wf synced ->
   (length (scores self) <= length (scores (resync_metagraph synced self).1))%nat).
Proof.
  split.
  - apply resync_metagraph_shrink_raises.
  - apply resync_metagraph_never_shortens.
Qed.

End ResyncFacts.

(** ** The reputation accumulator *)

Section UpdateFacts.
Context {R F : Type} `{Dtype R} `{Dtype F} `{Cast R F}.

Lemma array_index_in_range len u :
  0 <= u < Z.of_nat len -> array_index len u = Ok (Z.to_nat u).
Proof. intros Hu. unfold array_index. by destruct (decide _). Qed.

Lemma array_index_Ok len u i : array_index len u = Ok i -> (i < len)%nat.
Proof.
  unfold array_index. destruct (decide _); [intros [= <-]; lia|].
  destruct (decide _); [intros [= <-]; lia|done].
Qed.

(** A scatter that succeeds keeps the length, and keeps any property that
    the array and the rewards, once stored, share. *)
Lemma scatter_Forall (P : F -> Prop) uids : forall (rewards : list R) arr arr',
  scatter uids rewards arr = Ok arr' ->
  Forall (fun r => P (astype r)) rewards -> Forall P arr ->
  length arr' = length arr /\ Forall P arr'.
Proof.
  induction uids as [|u uids IH]; intros rewards arr arr' Hs Hr Ha; simpl in Hs.
  - by injection Hs as <-.
  - destruct rewards as [|r rewards]; [by injection Hs as <-|].
    destruct (array_index (length arr) u) as [i|e] eqn:Hi; [|done]. simpl in Hs.
    inversion Hr; subst.
    apply IH in Hs as [Hl HP]; [|done|by apply Forall_insert].
    by rewrite length_insert in Hl.
Qed.

(** The scatter of rewards at distinct uids in range. *)
Lemma scatter_distinct uids : forall (rewards : list R) (arr : list F),
  length rewards = length uids -> NoDup uids ->
  Forall (fun u => 0 <= u < Z.of_nat (length arr)) uids ->
  exists arr',
    scatter uids rewards arr = Ok arr' /\
    length arr' = length arr /\
    (forall i u r, uids !! i = Some u -> rewards !! i = Some r ->
                   arr' !! Z.to_nat u = Some (astype r)) /\
    (forall j, Z.of_nat j ∉ uids -> arr' !! j = arr !! j).
Proof.
  induction uids as [|u uids IH]; intros rewards arr Hlen Hnd Hin; simpl.
  - exists arr. repeat split; done.
  - destruct rewards as [|r rewards]; [done|]. simpl in Hlen.
    apply list.NoDup_cons in Hnd as [Hu Hnd]. inversion Hin as [|? ? Hur Hin']; subst.
    rewrite array_index_in_range by done. simpl.
    destruct (IH rewards (<[Z.to_nat u := astype r]> arr))
      as (arr' & -> & Hl & Hat & Hoff);
      [lia|done|by rewrite length_insert|].
    rewrite length_insert in Hl. exists arr'. repeat split; [done| |].
    + intros [|i] u' r' Hi Hr; simpl in Hi, Hr.
      * injection Hi as <-. injection Hr as <-.
        rewrite Hoff by (rewrite Z2Nat.id by lia; done).
        apply list_lookup_insert_eq. lia.
      * by apply (Hat i).
    + intros j Hj. apply not_elem_of_cons in Hj as [Hju Hj].
      rewrite Hoff by done. apply list_lookup_insert_ne. lia.
Qed.

Lemma sanitize_no_nan (rewards : list R) :
  existsb fisnan rewards = false -> sanitize rewards = rewards.
Proof. intros Hn. unfold sanitize. by rewrite Hn. Qed.

(** The update for rewards at distinct uids in range, none of them NaN. *)
Lemma update_scores_distinct (self : Validator R F) (rewards : list R) uids :
  rewards <> [] -> length rewards = length uids -> NoDup uids ->
  Forall (fun u => 0 <= u < Z.of_nat (length (scores self))) uids ->
  existsb fisnan rewards = false ->
  exists scattered,
    update_scores rewards uids self =
      (set_scores (moving_average (moving_average_alpha self) scattered (scores self))
                  self, Ok ()) /\
    length scattered = length (scores self) /\
    (forall i u r, uids !! i = Some u -> rewards !! i = Some r ->
                   scattered !! Z.to_nat u = Some (astype r)) /\
    (forall j, (j < length (scores self))%nat -> Z.of_nat j ∉ uids ->
               scattered !! j = Some fzero) /\
    (forall j s, scores self !! j = Some s ->
       exists x, scattered !! j = Some x /\
         moving_average (moving_average_alpha self) scattered (scores self) !! j =
         Some (fadd (fmul (astype (moving_average_alpha self)) x)
                    (fmul (astype (fsub fone (moving_average_alpha self))) s))).
Proof.
  intros Hne Hlen Hnd Hin Hnan. unfold update_scores.
  rewrite sanitize_no_nan by done.
  destruct (decide _) as [[Hz|Hz]|_].
  { by destruct rewards. }
  { rewrite Hz in Hlen. by destruct rewards. }
  destruct (decide _) as [?|_]; [done|].
  destruct (scatter_distinct uids rewards (zeros (length (scores self))))
    as (scattered & -> & Hl & Hat & Hoff); [done|done| |].
  { unfold zeros. by rewrite length_replicate. }
  unfold zeros in Hl, Hoff. rewrite length_replicate in Hl.
  exists scattered. repeat split; [done|done| |].
  - intros j Hj Hnotin. rewrite Hoff by done. by apply lookup_replicate_2.
  - intros j s Hs. pose proof (lookup_lt_Some _ _ _ Hs) as Hj.
    destruct (lookup_lt_is_Some_2 scattered j) as [x Hx]; [lia|].
    exists x. split; [done|]. unfold moving_average.
    rewrite lookup_zip_with, Hx, Hs. done.
Qed.

Lemma sanitize_length (rewards : list R) :
  length (sanitize rewards) = length rewards.
Proof. unfold sanitize. destruct (existsb _ _); [apply length_map|done]. Qed.

(** The scores that an update of distinct uids in range leaves: at the uid
    of a reward, the moving average of the stored reward, as [sanitize] left
    it, and the old score; elsewhere that of zero and the old score. *)
Lemma update_scores_at (self : Validator R F) (rewards : list R) uids :
  rewards <> [] -> length rewards = length uids -> NoDup uids ->
  Forall (fun u => 0 <= u < Z.of_nat (length (scores self))) uids ->
  let alpha := moving_average_alpha self in
  let updated := update_scores rewards uids self in
  updated.2 = Ok () /\
  hotkeys updated.1 = hotkeys self /\
  metagraph updated.1 = metagraph self /\
  length (scores updated.1) = length (scores self) /\
  (forall i u r s, uids !! i = Some u -> sanitize rewards !! i = Some r ->
     scores self !! Z.to_nat u = Some s ->
     scores updated.1 !! Z.to_nat u =
       Some (fadd (fmul (astype alpha) (astype r))
                  (fmul (astype (fsub fone alpha)) s))) /\
  (forall j s, Z.of_nat j ∉ uids -> scores self !! j = Some s ->
     scores updated.1 !! j =
       Some (fadd (fmul (astype alpha) fzero)
                  (fmul (astype (fsub fone alpha)) s))).
Proof.
  intros Hne Hlen Hnd Hin alpha updated. subst updated. unfold update_scores.
  pose proof (sanitize_length rewards) as Hsl.
  destruct (decide _) as [[Hz|Hz]|_].
  { rewrite Hsl in Hz. by destruct rewards. }
  { rewrite Hz in Hlen. by destruct rewards. }
  destruct (decide _) as [Hd|_]; [by rewrite Hsl in Hd|].
  destruct (scatter_distinct uids (sanitize rewards) (zeros (length (scores self))))
    as (scattered & -> & Hl & Hat & Hoff); [by rewrite Hsl|done| |].
  { unfold zeros. by rewrite length_replicate. }
  unfold zeros in Hl, Hoff. rewrite length_replicate in Hl. simpl.
  split; [done|]. split; [done|]. split; [done|]. split; [|split].
  - unfold moving_average. rewrite length_zip_with. lia.
  - intros i u r s Hu Hr Hs. unfold moving_average.
    by rewrite lookup_zip_with, (Hat i u r Hu Hr), Hs.
  - intros j s Hj Hs. unfold moving_average.
    pose proof (lookup_lt_Some _ _ _ Hs) as Hlt.
    rewrite lookup_zip_with, (Hoff j Hj), Hs.
    by rewrite (lookup_replicate_2 _ _ _ Hlt).
Qed.

End UpdateFacts.

Section SanitizeFacts.
Context {R F : Type} `{Dtype R} `{Dtype F} `{Cast R F}.

Lemma nan_to_num_not_nan (x : R) :
  nan_free_constants R -> fisnan (nan_to_num x) = false.
Proof.
  intros (H0' & Hmax & Hmin). unfold nan_to_num.
  destruct (fisnan x) eqn:Hx; [done|].
  destruct (fisposinf x); [done|]. by destruct (fisneginf x).
Qed.

Lemma existsb_map_false {A B} (f : B -> bool) (g : A -> B) l :
  (forall x, f (g x) = false) -> existsb f (map g l) = false.
Proof. intros Hf. induction l as [|x l IH]; simpl; [done|]. by rewrite Hf, IH. Qed.

Lemma sanitize_not_nan (rewards : list R) :
  nan_free_constants R -> existsb fisnan (sanitize rewards) = false.
Proof.
  intros Hc. unfold sanitize. destruct (existsb fisnan rewards) eqn:Hr; [|done].
  apply existsb_map_false. intros x. by apply nan_to_num_not_nan.
Qed.

Lemma sanitize_lookup (rewards : list R) i r :
  existsb fisnan rewards = true -> rewards !! i = Some r ->
  sanitize rewards !! i = Some (nan_to_num r).
Proof.
  intros Hn Hi. unfold sanitize. rewrite Hn.
  change (map nan_to_num rewards) with (nan_to_num <$> rewards).
  by rewrite list_lookup_fmap, Hi.
Qed.

(** What the sanitising does to a batch, for every dtype of rewards whose
    0, [finfo.max] and [finfo.min] are numbers, and every dtype of scores. *)
Lemma sanitize_spec (rewards : list R) :
  nan_free_constants R ->
  existsb fisnan (sanitize rewards) = false /\
  length (sanitize rewards) = length rewards /\
  (forall i r, rewards !! i = Some r -> fisnan r = true ->
               sanitize rewards !! i = Some fzero) /\
  (forall i r, rewards !! i = Some r ->
               fisnan r = false -> fisposinf r = false -> fisneginf r = false ->
               sanitize rewards !! i = Some r) /\
  (existsb fisnan rewards = false -> sanitize rewards = rewards) /\
  (existsb fisnan rewards = true ->
   forall i r, rewards !! i = Some r -> fisnan r = false ->
     (fisposinf r = true -> sanitize rewards !! i = Some finfo_max) /\
     (fisposinf r = false -> fisneginf r = true ->
      sanitize rewards !! i = Some finfo_min)) /\
  (forall uids (self : Validator R F),
     rewards <> [] -> length rewards = length uids -> NoDup uids ->
     Forall (fun u => 0 <= u < Z.of_nat (length (scores self))) uids ->
     forall i u r s, uids !! i = Some u -> sanitize rewards !! i = Some r ->
       scores self !! Z.to_nat u = Some s ->
       fisnan r = false /\
       scores (update_scores rewards uids self).1 !! Z.to_nat u =
         Some (fadd (fmul (astype (moving_average_alpha self)) (astype r))
                    (fmul (astype (fsub fone (moving_average_alpha self))) s))).
Proof.
  intros Hc. split; [by apply sanitize_not_nan|].
  split; [apply sanitize_length|]. split; [|split; [|split; [|split]]].
  - intros i r Hi Hr.
    assert (existsb fisnan rewards = true) as Hn.
    { apply existsb_exists. exists r. split; [|done].
      apply list_elem_of_In, list_elem_of_lookup. by exists i. }
    rewrite (sanitize_lookup _ _ _ Hn Hi). unfold nan_to_num. by rewrite Hr.
  - intros i r Hi Hn Hp Hm. unfold sanitize. destruct (existsb _ _); [|done].
    change (map nan_to_num rewards) with (nan_to_num <$> rewards).
    rewrite list_lookup_fmap, Hi. simpl. unfold nan_to_num. by rewrite Hn, Hp, Hm.
  - apply sanitize_no_nan.
  - intros Hn i r Hi Hr. rewrite (sanitize_lookup _ _ _ Hn Hi). unfold nan_to_num.
    rewrite Hr. split; [by intros ->|]. by intros -> ->.
  - intros uids self Hne Hlen Hnd Hin i u r s Hu Hr Hs. split.
    + pose proof (sanitize_not_nan rewards Hc) as Hall.
      destruct (fisnan r) eqn:Hnan; [|done].
      assert (existsb fisnan (sanitize rewards) = true) as Hex; [|congruence].
      apply existsb_exists. exists r. split; [|done].
      apply list_elem_of_In, list_elem_of_lookup. by exists i.
    + by apply (update_scores_at self rewards uids Hne Hlen Hnd Hin) with i.
Qed.

End SanitizeFacts.

(** ** The weights *)

Section WeightFacts.
Context {R F : Type} `{Dtype F}.
Variable process_weights_for_netuid : list Z -> list F -> result (list Z * list F).
Variable convert_weights_and_uids_for_emit : list Z -> list F -> result (list Z * list Z).
Variable subtensor_set_weights : list Z -> list Z -> result (bool * string).

(** C5.  With a score vector whose entries all compare equal to 0,
    [set_weights] returns at once: no collaborator is called, neither the
    shaping, nor the quantisation, nor the submission to the chain, and the
    validator, its scores included, is as before. *)
Theorem set_weights_all_zero (self : Validator R F) :
  Forall (fun s => feqb s fzero = true) (scores self) ->
  set_weights process_weights_for_netuid convert_weights_and_uids_for_emit
    subtensor_set_weights self = (self, [], Ok ()).
Proof.
  intros Hz. unfold set_weights.
  assert (forallb (fun s => feqb s fzero) (scores self) = true) as ->; [|done].
  apply forallb_forall. intros x Hx.
  by apply (proj1 (List.Forall_forall _ _) Hz).
Qed.




End WeightFacts.

(** ** Exact arithmetic *)

Lemma nonneg_Fin xs :
  Forall nonneg xs -> exists qs, xs = map Fin qs /\ Forall (fun q => 0 <= q)%Qc qs.
Proof.
  induction 1 as [|x xs Hx _ (qs & -> & Hqs)]; [by exists []|].
  destruct x as [q| | |]; try done. exists (q :: qs). split; [done|by constructor].
Qed.

(** The length of the array is fuel enough for [pairwise_sum]: more fuel
    gives the same sum. *)
Lemma pairwise_sum_fuel {F} `{Dtype F} fuel : forall fuel' (xs : list F),
  (length xs <= fuel)%nat -> (length xs <= fuel')%nat ->
  pairwise_sum fuel xs = pairwise_sum fuel' xs.
Proof.
  induction fuel as [|fuel IH]; intros fuel' xs Hf Hf'.
  { destruct xs; [|simpl in Hf; lia]. by destruct fuel'. }
  destruct fuel' as [|fuel'].
  { destruct xs; [done|simpl in Hf'; lia]. }
  cbn [pairwise_sum].
  destruct (length xs <? 8)%nat; [done|].
  destruct (length xs <=? 128)%nat eqn:Hn; [done|].
  apply Nat.leb_gt in Hn.
  pose proof (Nat.Div0.mul_div_le (length xs) 2) as Hhalf.
  pose proof (Nat.Div0.mod_le (length xs / 2) 8) as Hmod.
  pose proof (Nat.mod_upper_bound (length xs / 2) 8) as Hup.
  assert (64 <= length xs / 2)%nat as H64.
  { apply Nat.div_le_lower_bound; lia. }
  f_equal; apply IH; rewrite ?length_take, ?length_drop; lia.
Qed.

(** Exact addition is commutative and associative, so the order in which
    numpy adds is not seen: every sum is the sum from the right. *)
Lemma xadd_comm x y : xadd x y = xadd y x.
Proof. destruct x, y; simpl; try done. f_equal. ring. Qed.

Lemma xadd_assoc x y z : xadd x (xadd y z) = xadd (xadd x y) z.
Proof. destruct x, y, z; simpl; try done. f_equal. ring. Qed.

Lemma xadd_0_l x : xadd (Fin 0%Qc) x = x.
Proof. destruct x; simpl; try done. f_equal. ring. Qed.

Lemma xadd_0_r x : xadd x (Fin 0%Qc) = x.
Proof. by rewrite xadd_comm, xadd_0_l. Qed.

Local Abbreviation xsum := (foldr xadd (Fin 0%Qc)).

Lemma foldl_xadd xs : forall a, foldl xadd a xs = xadd a (xsum xs).
Proof.
  induction xs as [|x xs IH]; intros a; cbn [foldl foldr];
    [by rewrite xadd_0_r|].
  by rewrite IH, xadd_assoc.
Qed.

Lemma xsum_app xs ys : xsum (xs ++ ys) = xadd (xsum xs) (xsum ys).
Proof.
  induction xs as [|x xs IH]; cbn [foldr app]; [by rewrite xadd_0_l|].
  by rewrite IH, xadd_assoc.
Qed.

Lemma xsum_zip_with r : forall b,
  length r = length b -> xsum (zip_with xadd r b) = xadd (xsum r) (xsum b).
Proof.
  induction r as [|x r IH]; intros [|y b] Hl; cbn [foldr zip_with length] in *;
    try done.
  rewrite IH by lia. rewrite <- !xadd_assoc. f_equal.
  rewrite !xadd_assoc. f_equal. apply xadd_comm.
Qed.

Lemma accumulate_xsum blocks : forall r xs,
  length r = 8%nat -> (8 * blocks <= length xs)%nat ->
  length (accumulate blocks r xs).1 = 8%nat /\
  xadd (xsum (accumulate blocks r xs).1) (xsum (accumulate blocks r xs).2) =
    xadd (xsum r) (xsum xs).
Proof.
  induction blocks as [|blocks IH]; intros r xs Hr Hxs; cbn [accumulate fst snd];
    [done|].
  assert (length (take 8 xs) = 8%nat) as Ht by (rewrite length_take; lia).
  destruct (IH (zip_with fadd r (take 8 xs)) (drop 8 xs)) as [Hl Hs].
  { rewrite length_zip_with. lia. }
  { rewrite length_drop. lia. }
  split; [done|]. rewrite Hs.
  change (zip_with fadd r (take 8 xs)) with (zip_with xadd r (take 8 xs)).
  rewrite xsum_zip_with by lia. rewrite <- xadd_assoc, <- xsum_app.
  by rewrite take_drop.
Qed.

Lemma unrolled_sum_xsum (xs : list xnum) :
  (8 <= length xs)%nat -> unrolled_sum xs = xsum xs.
Proof.
  intros Hn. unfold unrolled_sum.
  destruct (accumulate_xsum (length xs / 8 - 1) (take 8 xs) (drop 8 xs))
    as [Hl Hs].
  { rewrite length_take. lia. }
  { rewrite length_drop.
    pose proof (Nat.Div0.mul_div_le (length xs) 8). lia. }
  destruct (accumulate _ _ _) as [r rest]. simpl in Hl, Hs.
  rewrite <- (xsum_app (take 8 xs)), take_drop in Hs.
  destruct r as [|r0 [|r1 [|r2 [|r3 [|r4 [|r5 [|r6 [|r7 [|r8 r]]]]]]]]];
    simpl in Hl; try lia.
  rewrite foldl_xadd, <- Hs. f_equal. simpl.
  change fadd with xadd. rewrite xadd_0_r, !xadd_assoc. done.
Qed.

Lemma pairwise_sum_xsum fuel : forall xs : list xnum,
  pairwise_sum fuel xs = xsum xs.
Proof.
  induction fuel as [|fuel IH]; intros xs; simpl.
  - destruct (length xs <? 8)%nat eqn:H8.
    + unfold sum_left. change fadd with xadd.
      by rewrite foldl_xadd, xadd_0_l.
    + apply Nat.ltb_ge in H8. destruct (length xs <=? 128)%nat;
        by apply unrolled_sum_xsum.
  - destruct (length xs <? 8)%nat eqn:H8.
    + unfold sum_left. change fadd with xadd.
      by rewrite foldl_xadd, xadd_0_l.
    + apply Nat.ltb_ge in H8. destruct (length xs <=? 128)%nat;
        [by apply unrolled_sum_xsum|].
      rewrite !IH. change fadd with xadd. by rewrite <- xsum_app, take_drop.
Qed.

Lemma fsum_xsum (xs : list xnum) : fsum xs = xsum xs.
Proof. unfold fsum. rewrite pairwise_sum_xsum. apply xadd_0_l. Qed.

Lemma fsum_Fin qs : fsum (map Fin qs) = Fin (qsum qs).
Proof.
  rewrite fsum_xsum. induction qs as [|q qs IH]; [done|].
  simpl in *. by rewrite IH.
Qed.

Lemma l1_norm_Fin qs :
  Forall (fun q => 0 <= q)%Qc qs -> l1_norm (map Fin qs) = Fin (qsum qs).
Proof.
  intros Hqs. unfold l1_norm. rewrite <- fsum_Fin. f_equal.
  induction Hqs as [|q qs Hq _ IH]; [done|]. simpl in *. rewrite IH. f_equal.
  destruct (decide (q < 0)%Qc) as [Hlt|_]; [|done].
  by apply Qclt_not_le in Hlt.
Qed.

Lemma qsum_nonneg qs : Forall (fun q => 0 <= q)%Qc qs -> (0 <= qsum qs)%Qc.
Proof.
  induction 1 as [|q qs Hq _ IH]; simpl; [done|]. by apply Qcplus_nonneg_nonneg.
Qed.

Lemma qsum_pos qs :
  Forall (fun q => 0 <= q)%Qc qs -> Exists (fun q => q <> 0%Qc) qs ->
  (0 < qsum qs)%Qc.
Proof.
  induction 1 as [|q qs Hq Hqs IH]; intros Hex; inversion Hex; subst; simpl.
  - apply Qcplus_pos_nonneg; [|by apply qsum_nonneg].
    by destruct (Qcle_lt_or_eq _ _ Hq).
  - apply Qcplus_nonneg_pos; [done|by apply IH].
Qed.

Lemma not_all_zero qs :
  forallb (fun s => xeqb s (Fin 0%Qc)) (map Fin qs) = false ->
  Exists (fun q => q <> 0%Qc) qs.
Proof.
  induction qs as [|q qs IH]; simpl; [done|].
  destruct (bool_decide (q = 0%Qc)) eqn:Hq; simpl.
  - intros Hr. right. by apply IH.
  - intros _. left. by apply bool_decide_eq_false in Hq.
Qed.

Lemma qsum_div n qs :
  n <> 0%Qc -> qsum (map (fun q => q / n)%Qc qs) = (qsum qs / n)%Qc.
Proof.
  intros Hn. induction qs as [|q qs IH]; simpl; [by field|]. rewrite IH. by field.
Qed.

Lemma xdiv_Fin n qs :
  n <> 0%Qc ->
  map (fun s => xdiv s (Fin n)) (map Fin qs) = map Fin (map (fun q => q / n)%Qc qs).
Proof.
  intros Hn. induction qs as [|q qs IH]; simpl; [done|]. rewrite IH. f_equal.
  by destruct (decide (n = 0%Qc)).
Qed.

(** In exact arithmetic the raw weights of a non-negative score vector that
    is not all zero are the scores over their sum, and sum to 1. *)
Lemma raw_weights_sum (xs : list xnum) :
  Forall nonneg xs -> forallb (fun s => feqb s fzero) xs = false ->
  exists n, l1_norm xs = Fin n /\ (0 < n)%Qc /\
    raw_weights xs = map (fun s => fdiv s (Fin n)) xs /\
    fsum (raw_weights xs) = Fin 1%Qc.
Proof.
  intros (qs & -> & Hqs)%nonneg_Fin Hnz. exists (qsum qs).
  pose proof (qsum_pos qs Hqs (not_all_zero qs Hnz)) as Hpos.
  assert (qsum qs <> 0%Qc) as Hne by (intros Heq; rewrite Heq in Hpos; done).
  assert (raw_weights (map Fin qs) = map (fun s => fdiv s (Fin (qsum qs))) (map Fin qs))
    as Hraw.
  { unfold raw_weights, guarded_norm. rewrite l1_norm_Fin by done. simpl.
    by rewrite bool_decide_eq_false_2. }
  split; [by apply l1_norm_Fin|]. split; [done|]. split; [done|].
  rewrite Hraw. change fdiv with xdiv. rewrite xdiv_Fin, fsum_Fin, qsum_div by done.
  f_equal. by field.
Qed.

Lemma moving_average_nonneg a r s :
  (0 < a)%Qc -> (a <= 1)%Qc -> nonneg r -> nonneg s ->
  nonneg (fadd (fmul (Fin a) r) (fmul (fsub fone (Fin a)) s)).
Proof.
  intros Ha Ha1 Hr Hs. destruct r as [r| | |], s as [s| | |]; try done. simpl in *.
  apply Qcplus_nonneg_nonneg; apply Qcmult_nonneg_nonneg; try done.
  - by apply Qclt_le_weak.
  - by apply Qcle_minus_iff in Ha1.
Qed.

Lemma in_unit_nonneg x : in_unit x -> nonneg x.
Proof. destruct x; simpl; tauto. Qed.

Lemma nonneg_not_nan xs : Forall nonneg xs -> existsb fisnan xs = false.
Proof. induction 1 as [|[] xs Hx _ IH]; simpl; done. Qed.

Lemma scatter_in_range (uids : list Z) : forall (rewards arr : list xnum),
  Forall (fun u => 0 <= u < Z.of_nat (length arr)) uids ->
  is_ok (scatter uids rewards arr) = true.
Proof.
  induction uids as [|u uids IH]; intros rewards arr Hin; simpl; [done|].
  destruct rewards as [|r rewards]; [done|]. inversion Hin; subst.
  rewrite array_index_in_range by done. simpl. apply IH.
  by rewrite length_insert.
Qed.

(** In exact arithmetic, with alpha in (0, 1], rewards in [0, 1] and a prior
    score vector of non-negative numbers, one per member, an update leaves
    the score vector with its length and with entries that are non-negative
    numbers; when the uids are indices of members, as many as the rewards,
    it does not raise. *)
Lemma update_scores_exact_invariant (self : Validator xnum xnum)
    (rewards : list xnum) (uids : list Z) (a : Qc) :
  moving_average_alpha self = Fin a -> (0 < a)%Qc -> (a <= 1)%Qc ->
  Forall in_unit rewards ->
  Forall (fun u => 0 <= u < Z.of_nat (Metagraph.n (metagraph self))) uids ->
  length (scores self) = Metagraph.n (metagraph self) ->
  Forall nonneg (scores self) ->
  length (scores (update_scores rewards uids self).1) = length (scores self) /\
  Forall (fun x => finite x /\ nonneg x) (scores (update_scores rewards uids self).1) /\
  (length rewards = length uids -> (update_scores rewards uids self).2 = Ok ()).
Proof.
  intros Halpha Ha Ha1 Hr Hu Hlen Hs.
  assert (Forall (fun x => finite x /\ nonneg x) (scores self)) as Hs'.
  { eapply List.Forall_impl; [|exact Hs]. intros [] ?; done. }
  assert (Forall nonneg rewards) as Hrn.
  { eapply List.Forall_impl; [|exact Hr]. apply in_unit_nonneg. }
  unfold update_scores. rewrite sanitize_no_nan by by apply nonneg_not_nan.
  destruct (decide _) as [_|_]; [done|].
  destruct (decide _) as [?|_]; [done|].
  pose proof (scatter_in_range uids rewards (zeros (length (scores self)))) as Hok.
  destruct (scatter uids rewards (zeros (length (scores self)))) as [sc|e] eqn:Hsc.
  - apply (scatter_Forall nonneg) in Hsc as [Hl Hn]; [|done|].
    2:{ unfold zeros. by apply Forall_replicate. }
    unfold zeros in Hl. rewrite length_replicate in Hl. simpl.
    split; [|split; [|done]].
    + unfold moving_average. rewrite length_zip_with. lia.
    + rewrite Halpha. unfold moving_average. apply Forall_lookup.
      intros i x (r & s & -> & Hri & Hsi)%lookup_zip_with_Some.
      assert (nonneg (fadd (fmul (Fin a) r) (fmul (fsub fone (Fin a)) s))) as Hnn.
      { apply moving_average_nonneg; [done|done|..].
        - by apply (proj1 (Forall_lookup _ _) Hn i).
        - by apply (proj1 (Forall_lookup _ _) Hs i). }
      split; [|done]. by destruct (fadd _ _).
  - simpl. split; [done|]. split; [done|]. intros _. exfalso.
    unfold zeros in Hok. rewrite length_replicate, Hlen in Hok.
    by specialize (Hok Hu).
Qed.

(** ** Concrete engines *)

Lemma draw_head_spec : draws_without_replacement unit draw_head.
Proof.
  intros g population k Hk. unfold draw_head. simpl. split.
  - rewrite length_take. lia.
  - apply submseteq_take.
Qed.

Lemma serve_api_request_no_winner_witness :
  serve_api_request unit draw_head always_available (one_reply 3)
    () four_workers 20 (api_forward_submit (request 5))
  = (api_forward_submit (request 5), Ok Continue, ()) /\
  api_forward_result (api_forward_submit (request 5)) = None.
Proof.
  eapply (serve_api_request_no_winner unit draw_head always_available (one_reply 3)
            () four_workers 20 (api_forward_submit (request 5)));
    reflexivity.
Defined.

Lemma choose_uids_none_available_witness :
  (choose_uids unit draw_head never_available () (metagraph four_workers) 20).1
  = Raise ValueError.
Proof.
  apply (choose_uids_none_available unit draw_head never_available draw_head_spec).
  reflexivity.
Defined.

(** C3, the claim refuted.  On the score vector that [__init__] builds, a
    float32 array, a reward of 1 for a worker whose score is 0 gives, with
    alpha = 0.2, the float32 nearest to 0.2, which is not Python's 0.2: as a
    double it is 0.20000000298023224. *)
Lemma update_scores_float32 :
  scores (update_scores [1%float] [0] worker_A).1 = [one_fifth_float32] /\
  astype (F := float) one_fifth_float32 = 0x1.99999ap-3%float /\
  feqb (astype (F := float) one_fifth_float32) one_fifth = false.
Proof. repeat split; reflexivity. Qed.

(** C3, as amended.  For rewards at distinct uids within the score vector,
    [update_scores] stores [alpha * scattered + (1 - alpha) * scores]
    elementwise, computed in the dtype of the score vector: [scattered]
    holds each reward, as [sanitize] left it and stored in that dtype, at its
    uid and 0 elsewhere, and [alpha] and [1 - alpha] are brought to that
    dtype.  Rewards none of which is NaN are left as they are.  A single
    reward of 1 for a worker whose score is 0 gives, with alpha = 0.2, the
    float32 nearest to 0.2 on the float32 vector of [__init__], the double
    nearest to 0.2 on a float64 vector, and 1/5 in exact arithmetic. *)
Theorem update_scores_moving_average {R F : Type} `{Dtype R} `{Dtype F}
    `{Cast R F} (self : Validator R F) (rewards : list R) (uids : list Z) :
  rewards <> [] -> length rewards = length uids -> NoDup uids ->
  Forall (fun u => 0 <= u < Z.of_nat (length (scores self))) uids ->
  let alpha := moving_average_alpha self in
  let updated := update_scores rewards uids self in
  (updated.2 = Ok () /\
   hotkeys updated.1 = hotkeys self /\
   metagraph updated.1 = metagraph self /\
   length (scores updated.1) = length (scores self) /\
   (forall i u r s, uids !! i = Some u -> sanitize rewards !! i = Some r ->
      scores self !! Z.to_nat u = Some s ->
      scores updated.1 !! Z.to_nat u =
        Some (fadd (fmul (astype alpha) (astype r))
                   (fmul (astype (fsub fone alpha)) s))) /\
   (forall j s, Z.of_nat j ∉ uids -> scores self !! j = Some s ->
      scores updated.1 !! j =
        Some (fadd (fmul (astype alpha) fzero)
                   (fmul (astype (fsub fone alpha)) s)))) /\
  (existsb fisnan rewards = false -> sanitize rewards = rewards) /\
  scores (update_scores [1%float] [0] worker_A).1 = [one_fifth_float32] /\
  scores (update_scores [1%float] [0] worker_A_float).1 = [one_fifth] /\
  scores (update_scores [Fin 1%Qc] [0] worker_A_exact).1 = [Fin (Q2Qc (1 # 5))].
Proof.
  intros Hne Hlen Hnd Hin alpha updated.
  split; [by apply update_scores_at|]. split; [apply sanitize_no_nan|].
  split; [reflexivity|]. split; [reflexivity|].
  unfold update_scores, set_scores. simpl. unfold astype, same_dtype.
  assert ((Q2Qc (1 # 5) * 1 + (1 + - Q2Qc (1 # 5)) * Q2Qc 0)%Qc = Q2Qc (1 # 5))
    as -> by (apply Qc_is_canon; reflexivity).
  reflexivity.
Qed.

Lemma update_scores_moving_average_witness :
  (update_scores [1%float] [0] worker_A).2 = Ok () /\
  scores (update_scores [1%float] [0] worker_A).1 !! 0%nat =
    Some (fadd (fmul (astype one_fifth) (astype 1%float))
               (fmul (astype (fsub fone one_fifth)) (S754_zero false))) /\
  scores (update_scores [1%float] [0] worker_A).1 = [one_fifth_float32].
Proof.
  destruct (update_scores_moving_average worker_A [1%float] [0])
    as ((Hok & _ & _ & _ & Hat & _) & _ & H32 & _).
  - discriminate.
  - reflexivity.
  - apply list.NoDup_singleton.
  - constructor; [simpl; lia|constructor].
  - split; [exact Hok|]. split; [|exact H32].
    apply (Hat 0%nat 0 1%float (S754_zero false)); reflexivity.
Defined.




(** C8, the claim refuted.  An infinite reward that comes without a NaN is
    not rewritten and reaches the scores; beside a NaN it becomes the largest
    finite double, not 0, and the float32 score vector of [__init__] stores
    that as an infinity again. *)
Lemma sanitize_keeps_infinity :
  sanitize [infinity] = [infinity] /\
  scores (update_scores [infinity] [0] worker_A_float).1 = [infinity] /\
  sanitize [nan; infinity; neg_infinity] = [0%float; float_max; (- float_max)%float] /\
  scores (update_scores [infinity] [0] worker_A).1 = [S754_infinity false] /\
  scores (update_scores [nan; infinity; neg_infinity] [0; 1; 2]
            (__init__ (F := float32) (metagraph_of ["hk-A"; "hk-B"; "hk-C"])
               one_fifth)).1
    = [S754_zero false; S754_infinity false; S754_infinity true].
Proof. repeat split; reflexivity. Qed.

(** C8, as amended.  Every NaN among the rewards is replaced by 0 before the
    scatter, and no reward that the moving average reads is NaN.  A reward
    that is a number is kept as it is.  An infinite reward is not replaced
    by 0: a batch without NaN is used as it is, and in a batch with a NaN an
    infinite reward becomes the largest finite value of its sign in the
    dtype of the rewards.  With rewards that are doubles, the float32 score
    vector of [__init__] stores an infinite reward as an infinity in both
    cases, and a float64 score vector stores the infinity in the first case
    and the largest finite double of its sign in the second. *)
Theorem sanitize_replaces_nan {R F : Type} `{Dtype R} `{Dtype F} `{Cast R F}
    (rewards : list R) :
  nan_free_constants R ->
  (existsb fisnan (sanitize rewards) = false /\
   length (sanitize rewards) = length rewards /\
   (forall i r, rewards !! i = Some r -> fisnan r = true ->
                sanitize rewards !! i = Some fzero) /\
   (forall i r, rewards !! i = Some r ->
                fisnan r = false -> fisposinf r = false -> fisneginf r = false ->
                sanitize rewards !! i = Some r) /\
   (existsb fisnan rewards = false -> sanitize rewards = rewards) /\
   (existsb fisnan rewards = true ->
    forall i r, rewards !! i = Some r -> fisnan r = false ->
      (fisposinf r = true -> sanitize rewards !! i = Some finfo_max) /\
      (fisposinf r = false -> fisneginf r = true ->
       sanitize rewards !! i = Some finfo_min)) /\
   (forall uids (self : Validator R F),
      rewards <> [] -> length rewards = length uids -> NoDup uids ->
      Forall (fun u => 0 <= u < Z.of_nat (length (scores self))) uids ->
      forall i u r s, uids !! i = Some u -> sanitize rewards !! i = Some r ->
        scores self !! Z.to_nat u = Some s ->
        fisnan r = false /\
        scores (update_scores rewards uids self).1 !! Z.to_nat u =
          Some (fadd (fmul (astype (moving_average_alpha self)) (astype r))
                     (fmul (astype (fsub fone (moving_average_alpha self))) s)))) /\
  (forall (batch : list float) (i : nat) (sign : bool),
     batch !! i = Some (if sign then neg_infinity else infinity) ->
     astype (F := float32) <$> sanitize batch !! i = Some (S754_infinity sign) /\
     astype (F := float) <$> sanitize batch !! i =
       Some (if existsb fisnan batch
             then (if sign then finfo_min else finfo_max)
             else (if sign then neg_infinity else infinity))).
Proof.
  intros Hc. split; [by apply sanitize_spec|].
  intros batch i sign Hi. destruct (existsb fisnan batch) eqn:Hn.
  - rewrite (sanitize_lookup _ _ _ Hn Hi). by destruct sign.
  - rewrite sanitize_no_nan, Hi by done. by destruct sign.
Qed.

Lemma sanitize_replaces_nan_witness :
  existsb fisnan (sanitize [nan; 1%float; infinity]) = false /\
  sanitize [nan; 1%float; infinity] = [0%float; 1%float; float_max] /\
  scores (update_scores [nan; 1%float; infinity] [0; 1; 2]
            (__init__ (F := float32) (metagraph_of ["hk-A"; "hk-B"; "hk-C"])
               one_fifth)).1
    = [S754_zero false; one_fifth_float32; S754_infinity false].
Proof.
  split; [|split; reflexivity].
  apply (sanitize_replaces_nan (F := float32) [nan; 1%float; infinity]).
  repeat split; reflexivity.
Defined.

Lemma set_weights_all_zero_witness :
  set_weights shape_nothing quantize_to_one submission_accepted idle_workers
  = (idle_workers, [], Ok ()).
Proof.
  apply set_weights_all_zero. repeat constructor.
Defined.

Lemma update_scores_exact_invariant_witness :
  length (scores (update_scores [Fin 1%Qc] [1] two_workers).1) = 2%nat /\
  Forall (fun x => finite x /\ nonneg x)
         (scores (update_scores [Fin 1%Qc] [1] two_workers).1) /\
  (update_scores [Fin 1%Qc] [1] two_workers).2 = Ok ().
Proof.
  destruct (update_scores_exact_invariant two_workers [Fin 1%Qc] [1] (Q2Qc (1 # 5)))
    as (Hl & Hf & Hr).
  - reflexivity.
  - reflexivity.
  - discriminate.
  - repeat constructor; discriminate.
  - constructor; [simpl; lia|constructor].
  - reflexivity.
  - repeat constructor; discriminate.
  - split; [exact Hl|]. split; [exact Hf|]. by apply Hr.
Defined.

Lemma resync_metagraph_scores_witness :
  in_step four_workers /\ Metagraph.wf six_workers /\
  resync_metagraph six_workers four_workers =
    ({| hotkeys := Metagraph.hotkeys six_workers;
        scores := [0.5%float; 0.25%float; 0%float; 1%float; 0%float; 0%float];
        metagraph := six_workers;
        moving_average_alpha := one_fifth |}, Ok ()) /\
  let '(self', r) := resync_metagraph six_workers four_workers in
  length (scores self') = 6%nat /\ scores self' !! 2%nat = Some 0%float.
Proof.
  assert (in_step four_workers) as Hs by (repeat split).
  assert (Metagraph.wf six_workers) as Hw by (repeat split).
  split; [exact Hs|]. split; [exact Hw|]. split; [reflexivity|].
  pose proof (resync_metagraph_scores six_workers four_workers Hs Hw) as Hr.
  destruct (resync_metagraph six_workers four_workers) as [self' r].
  destruct Hr as (_ & Hslot & Hgrow). split.
  - apply Hgrow. simpl. lia.
  - apply (Hslot 2%nat "hk-2" "hk-X"); reflexivity.
Defined.

Lemma resync_metagraph_shrink_witness :
  (resync_metagraph two_left four_workers).2 = Raise IndexError /\
  hotkeys (resync_metagraph two_left four_workers).1 = hotkeys four_workers /\
  length (scores (resync_metagraph two_left four_workers).1) = 4%nat.
Proof.
  apply (proj1 (resync_metagraph_shrink two_left four_workers)).
  - simpl. lia.
  - discriminate.
Defined.

(** ** Further properties of the reputation accumulator *)

Section UpdateErrors.
Context {R F : Type} `{Dtype R} `{Dtype F} `{Cast R F}.

Lemma array_index_Raise len u :
  array_index len u = Raise IndexError <->
  ~ (- Z.of_nat len <= u < Z.of_nat len).
Proof.
  unfold array_index. destruct (decide _); [split; [done|lia]|].
  destruct (decide _); [split; [done|lia]|]. split; [lia|done].
Qed.

Lemma array_index_cases len u :
  (exists i, array_index len u = Ok i /\ (i < len)%nat) \/
  array_index len u = Raise IndexError.
Proof.
  unfold array_index. destruct (decide _); [left; eexists; split; [done|lia]|].
  destruct (decide _); [left; eexists; split; [done|lia]|]. by right.
Qed.

(** A scatter of as many rewards as uids fails exactly when some uid lies
    outside the array, counted from either end, and then by [IndexError]. *)
Lemma scatter_outcome uids : forall (rewards : list R) (arr : list F),
  length rewards = length uids ->
  (is_ok (scatter uids rewards arr) = true <->
     Forall (fun u => - Z.of_nat (length arr) <= u < Z.of_nat (length arr)) uids) /\
  (is_ok (scatter uids rewards arr) = false ->
     scatter uids rewards arr = Raise IndexError).
Proof.
  induction uids as [|u uids IH]; intros rewards arr Hlen; simpl.
  - split; [split; [constructor|done]|done].
  - destruct rewards as [|r rewards]; [done|]. simpl in Hlen.
    destruct (array_index_cases (length arr) u) as [(i & Hi & Hlt)|Hi]; rewrite Hi; simpl.
    + destruct (IH rewards (<[i := astype r]> arr)) as [Hok Hraise]; [lia|].
      rewrite length_insert in Hok. split; [|done]. rewrite Hok. split.
      * intros Hall. constructor; [|done].
        destruct (decide (- Z.of_nat (length arr) <= u < Z.of_nat (length arr)))
          as [?|Hout]; [done|].
        apply array_index_Raise in Hout. congruence.
      * intros Hall. by inversion Hall.
    + split; [|done]. split; [done|]. intros Hall. inversion Hall; subst.
      by apply array_index_Raise in Hi.
Qed.

End UpdateErrors.

(** X1.  [update_scores] is all or nothing: when it raises, the validator is
    exactly as before.  It raises [ValueError] exactly when rewards and uids
    are both non-empty and differ in number, [IndexError] exactly when they
    are non-empty, equal in number and some uid lies outside the score
    vector counted from either end, and nothing else. *)
Theorem update_scores_raises {R F} `{Dtype R} `{Dtype F} `{Cast R F}
    (self : Validator R F) (rewards : list R) (uids : list Z) :
  let n := Z.of_nat (length (scores self)) in
  ((update_scores rewards uids self).2 <> Ok () ->
     (update_scores rewards uids self).1 = self) /\
  ((update_scores rewards uids self).2 = Raise ValueError <->
     rewards <> [] /\ uids <> [] /\ length rewards <> length uids) /\
  ((update_scores rewards uids self).2 = Raise IndexError <->
     rewards <> [] /\ length rewards = length uids /\
     Exists (fun u => ~ (- n <= u < n)) uids) /\
  (update_scores rewards uids self).2 <> Raise UnboundLocalError.
Proof.
  intros n. unfold update_scores. rewrite sanitize_length.
  destruct (decide (length rewards = 0%nat \/ length uids = 0%nat)) as [Hz|Hz]; simpl.
  { split; [done|]. split; [|split; [|done]].
    - split; [done|]. intros (Hr & Hu & _).
      destruct Hz as [Hz|Hz]; [by destruct rewards|by destruct uids].
    - split; [done|]. intros (Hr & Hl & Hex).
      destruct Hz as [Hz|Hz]; [by destruct rewards|].
      rewrite Hz in Hl. by destruct rewards. }
  assert (rewards <> [] /\ uids <> []) as [Hr Hu].
  { split; intros ->; simpl in Hz; tauto. }
  destruct (decide (length rewards <> length uids)) as [Hne|Heq]; simpl.
  { split; [done|]. split; [done|]. split; [|done].
    split; [done|]. intros (_ & Hl & _). done. }
  apply dec_stable in Heq.
  destruct (scatter_outcome uids (sanitize rewards) (zeros (length (scores self))))
    as [Hok Hraise]; [by rewrite sanitize_length|].
  assert (length (zeros (length (scores self))) = length (scores self)) as Hzl
    by apply length_replicate.
  rewrite Hzl in Hok. fold n in Hok.
  destruct (scatter uids (sanitize rewards) (zeros (length (scores self))))
    as [scattered|e] eqn:Hs; simpl in *.
  - split; [done|]. split; [split; [done|tauto]|]. split; [|done].
    split; [done|]. intros (_ & _ & Hex). exfalso.
    apply Exists_exists in Hex as (u & Hin & Hout).
    apply Hout. apply (proj1 (list.Forall_forall _ _) (proj1 Hok eq_refl) u Hin).
  - specialize (Hraise eq_refl) as [= ->].
    split; [done|]. split; [split; [done|tauto]|]. split; [|done].
    split; [|done]. intros _. split; [done|]. split; [done|].
    apply not_Forall_Exists; [intros u; apply _|]. intros Hall.
    by apply Hok in Hall.
Qed.

Lemma moving_average_in_unit a r s :
  (0 < a)%Qc -> (a <= 1)%Qc -> in_unit r -> in_unit s ->
  in_unit (fadd (fmul (Fin a) r) (fmul (fsub fone (Fin a)) s)).
Proof.
  intros Ha Ha1 Hr Hs. destruct r as [r| | |], s as [s| | |]; try done.
  simpl in *. destruct Hr as [Hr0 Hr1], Hs as [Hs0 Hs1].
  assert (0 <= 1 + - a)%Qc as Hb by (by apply Qcle_minus_iff in Ha1).
  split.
  - apply Qcplus_nonneg_nonneg; apply Qcmult_nonneg_nonneg; try done.
    by apply Qclt_le_weak.
  - apply Qcle_trans with (a * 1 + (1 + - a) * 1)%Qc.
    + apply Qcplus_le_compat.
      * apply Qcmult_le_mono_nonneg_l; [by apply Qclt_le_weak|done].
      * by apply Qcmult_le_mono_nonneg_l.
    + assert (a * 1 + (1 + - a) * 1 = 1)%Qc as -> by ring. apply Qcle_refl.
Qed.

(** X2.  In exact arithmetic, with alpha in (0, 1] and rewards in [0, 1], a
    score vector whose entries lie in [0, 1] stays one: no update, whether it
    succeeds or raises, takes a score out of [0, 1]. *)
Theorem update_scores_unit_interval (self : Validator xnum xnum)
    (rewards : list xnum) (uids : list Z) (a : Qc) :
  moving_average_alpha self = Fin a -> (0 < a)%Qc -> (a <= 1)%Qc ->
  Forall in_unit rewards -> Forall in_unit (scores self) ->
  Forall in_unit (scores (update_scores rewards uids self).1).
Proof.
  intros Halpha Ha Ha1 Hr Hs. unfold update_scores.
  assert (Forall nonneg rewards) as Hrn.
  { eapply List.Forall_impl; [|exact Hr]. apply in_unit_nonneg. }
  rewrite sanitize_no_nan by by apply nonneg_not_nan.
  destruct (decide _) as [_|_]; [done|].
  destruct (decide _) as [?|_]; [done|].
  destruct (scatter uids rewards (zeros (length (scores self)))) as [sc|e] eqn:Hsc;
    [|done].
  apply (scatter_Forall in_unit) in Hsc as [Hl Hn]; [|done|].
  2:{ unfold zeros. apply Forall_replicate. simpl. split; discriminate. }
  simpl. rewrite Halpha. unfold moving_average. apply Forall_lookup.
  intros i x (r & s & -> & Hri & Hsi)%lookup_zip_with_Some.
  apply moving_average_in_unit; [done|done|..].
  - by apply (proj1 (Forall_lookup _ _) Hn i).
  - by apply (proj1 (Forall_lookup _ _) Hs i).
Qed.

Lemma update_scores_unit_interval_witness :
  Forall in_unit (scores (update_scores [Fin 1%Qc] [1] two_workers).1).
Proof.
  apply (update_scores_unit_interval two_workers [Fin 1%Qc] [1] (Q2Qc (1 # 5))).
  - reflexivity.
  - reflexivity.
  - discriminate.
  - repeat constructor; discriminate.
  - repeat constructor; discriminate.
Defined.

(** One successful round, slot by slot. *)
Lemma update_scores_step {F} `{Dtype F} (self : Validator F F) rewards uids :
  rewards <> [] -> length rewards = length uids -> NoDup uids ->
  Forall (fun u => 0 <= u < Z.of_nat (length (scores self))) uids ->
  existsb fisnan rewards = false ->
  let self' := (update_scores rewards uids self).1 in
  let alpha := moving_average_alpha self in
  moving_average_alpha self' = alpha /\
  length (scores self') = length (scores self) /\
  (forall i u x s, uids !! i = Some u -> rewards !! i = Some x ->
     scores self !! Z.to_nat u = Some s ->
     scores self' !! Z.to_nat u =
       Some (fadd (fmul alpha x) (fmul (fsub fone alpha) s))) /\
  (forall j s, Z.of_nat j ∉ uids -> scores self !! j = Some s ->
     scores self' !! j =
       Some (fadd (fmul alpha fzero) (fmul (fsub fone alpha) s))).
Proof.
  intros Hne Hlen Hnd Hin Hnan.
  destruct (update_scores_distinct self rewards uids Hne Hlen Hnd Hin Hnan)
    as (scattered & -> & Hl & Hat & Hoff & Hma).
  simpl. split; [done|]. split; [|split].
  - unfold moving_average. rewrite length_zip_with. lia.
  - intros i u x s Hu Hx Hs. destruct (Hma _ _ Hs) as (y & Hy & ->).
    rewrite (Hat i u x Hu Hx) in Hy. by injection Hy as <-.
  - intros j s Hj Hs. destruct (Hma _ _ Hs) as (y & Hy & ->).
    rewrite (Hoff j) in Hy; [|by eapply lookup_lt_Some|done]. by injection Hy as <-.
Qed.

(** X3.  In exact arithmetic, after [n] rounds that reward the same workers
    with the same finite rewards, a rewarded worker's score is
    [x + (1 - alpha)^n * (s0 - x)], its reward [x] approached geometrically
    from its first score [s0], and the score of a worker that is not in the
    batch is [(1 - alpha)^n * s0]. *)
Theorem update_rounds_closed_form (self : Validator xnum xnum)
    (rewards : list xnum) (uids : list Z) (a : Qc) (n : nat) :
  moving_average_alpha self = Fin a ->
  rewards <> [] -> length rewards = length uids -> NoDup uids ->
  Forall (fun u => 0 <= u < Z.of_nat (length (scores self))) uids ->
  existsb fisnan rewards = false ->
  (forall i u x s0, uids !! i = Some u -> rewards !! i = Some (Fin x) ->
     scores self !! Z.to_nat u = Some (Fin s0) ->
     scores (update_rounds n rewards uids self) !! Z.to_nat u =
       Some (Fin (x + (1 - a) ^ n * (s0 - x))%Qc)) /\
  (forall j s0, Z.of_nat j ∉ uids -> scores self !! j = Some (Fin s0) ->
     scores (update_rounds n rewards uids self) !! j =
       Some (Fin ((1 - a) ^ n * s0)%Qc)).
Proof.
  intros Halpha Hne Hlen Hnd Hin Hnan.
  assert (moving_average_alpha (update_rounds n rewards uids self) = Fin a /\
          length (scores (update_rounds n rewards uids self)) = length (scores self) /\
          (forall i u x s0, uids !! i = Some u -> rewards !! i = Some (Fin x) ->
             scores self !! Z.to_nat u = Some (Fin s0) ->
             scores (update_rounds n rewards uids self) !! Z.to_nat u =
               Some (Fin (x + (1 - a) ^ n * (s0 - x))%Qc)) /\
          (forall j s0, Z.of_nat j ∉ uids -> scores self !! j = Some (Fin s0) ->
             scores (update_rounds n rewards uids self) !! j =
               Some (Fin ((1 - a) ^ n * s0)%Qc))) as (_ & _ & Hin' & Hout');
    [|by split].
  induction n as [|n (IHa & IHl & IHin & IHout)].
  - simpl. split; [done|]. split; [done|]. split.
    + intros i u x s0 _ _ ->. do 2 f_equal. ring.
    + intros j s0 _ ->. do 2 f_equal. ring.
  - change (update_rounds (S n) rewards uids self)
      with ((update_scores rewards uids (update_rounds n rewards uids self)).1).
    destruct (update_scores_step (update_rounds n rewards uids self) rewards uids)
      as (Ha' & Hl' & Hat & Hoff); [done|done|done|by rewrite IHl|done|].
    rewrite IHa in Ha', Hat, Hoff. split; [done|]. split; [by rewrite Hl'|]. split.
    + intros i u x s0 Hu Hx Hs. rewrite (Hat i u _ _ Hu Hx (IHin i u x s0 Hu Hx Hs)).
      simpl. do 2 f_equal. ring.
    + intros j s0 Hj Hs. rewrite (Hoff j _ Hj (IHout j s0 Hj Hs)).
      simpl. do 2 f_equal. ring.
Qed.

Lemma update_rounds_closed_form_witness :
  scores (update_rounds 3 [Fin 1%Qc] [1] two_workers) !! 1%nat =
    Some (Fin (1 + (1 - Q2Qc (1 # 5)) ^ 3 * (Q2Qc (1 # 2) - 1))%Qc) /\
  scores (update_rounds 3 [Fin 1%Qc] [1] two_workers) !! 0%nat =
    Some (Fin ((1 - Q2Qc (1 # 5)) ^ 3 * 0)%Qc).
Proof.
  destruct (update_rounds_closed_form two_workers [Fin 1%Qc] [1] (Q2Qc (1 # 5)) 3)
    as [Hin Hout].
  - reflexivity.
  - discriminate.
  - reflexivity.
  - apply list.NoDup_singleton.
  - constructor; [simpl; lia|constructor].
  - reflexivity.
  - split.
    + apply (Hin 0%nat 1 1%Qc (Q2Qc (1 # 2))); reflexivity.
    + apply (Hout 0%nat 0%Qc); [|reflexivity].
      intros Hx. apply list_elem_of_singleton in Hx. discriminate Hx.
Defined.

(** ** Further properties of the weights *)

Section EmissionFacts.
Context {R F : Type} `{Dtype F}.
Variable process_weights_for_netuid : list Z -> list F -> result (list Z * list F).
Variable convert_weights_and_uids_for_emit : list Z -> list F -> result (list Z * list Z).
Variable subtensor_set_weights : list Z -> list Z -> result (bool * string).

(** X4.  [set_weights] never touches the validator.  It submits to the chain
    at most once, and exactly when the scores are not all zero and both the
    shaping of the raw weights and the quantisation of its outcome succeed,
    with what the quantisation returned.  It raises exactly when the scores
    are not all zero and the shaping fails, and then [UnboundLocalError]
    whatever the shaping raised; a failed quantisation or submission is not
    raised. *)
Theorem set_weights_outcome (self : Validator R F) :
  let '(self', trace, r) :=
    set_weights process_weights_for_netuid convert_weights_and_uids_for_emit
      subtensor_set_weights self in
  let shaped :=
    process_weights_for_netuid (Metagraph.uids (metagraph self))
      (raw_weights (scores self)) in
  let some_score := negb (forallb (fun s => feqb s fzero) (scores self)) in
  self' = self /\
  (forall uids weights,
     (uids, weights) ∈ submissions trace <->
     some_score = true /\
     exists pu pw, shaped = Ok (pu, pw) /\
       convert_weights_and_uids_for_emit pu pw = Ok (uids, weights)) /\
  (length (submissions trace) <= 1)%nat /\
  (r = Raise UnboundLocalError <-> some_score = true /\ is_ok shaped = false) /\
  (r = Ok () \/ r = Raise UnboundLocalError).
Proof.
  unfold set_weights.
  destruct (forallb (fun s => feqb s fzero) (scores self)) eqn:Hz; simpl.
  { split; [done|]. split; [|split; [lia|split; [|by left]]].
    - intros u w. split; [by intros ?%elem_of_nil|by intros [? _]].
    - split; [done|by intros [? _]]. }
  destruct (process_weights_for_netuid _ _) as [[pu pw]|e] eqn:Hp; simpl.
  - destruct (convert_weights_and_uids_for_emit pu pw) as [[uu uw]|e] eqn:Hc; simpl.
    + split; [done|]. split; [|split; [lia|split; [|by left]]].
      * intros u w. rewrite list_elem_of_singleton. split.
        -- intros [= -> ->]. split; [done|]. by exists pu, pw.
        -- intros (_ & ? & ? & [= <- <-] & Hc'). rewrite Hc in Hc'.
           by injection Hc' as <- <-.
      * split; [done|by intros [_ ?]].
    + split; [done|]. split; [|split; [lia|split; [|by left]]].
      * intros u w. split; [by intros ?%elem_of_nil|].
        intros (_ & ? & ? & [= <- <-] & Hc'). by rewrite Hc in Hc'.
      * split; [done|by intros [_ ?]].
  - split; [done|]. split; [|split; [lia|split; [|by right]]].
    + intros u w. split; [by intros ?%elem_of_nil|].
      by intros (_ & ? & ? & ? & _).
    + done.
Qed.

End EmissionFacts.

Lemma qsum_ge q qs :
  Forall (fun q => 0 <= q)%Qc qs -> q ∈ qs -> (q <= qsum qs)%Qc.
Proof.
  induction 1 as [|p qs Hp Hqs IH]; intros Hin; [by apply elem_of_nil in Hin|].
  apply elem_of_cons in Hin as [->|Hin]; simpl.
  - assert (p = p + 0)%Qc as Hp0 by ring. rewrite Hp0 at 1.
    apply Qcplus_le_compat; [apply Qcle_refl|by apply qsum_nonneg].
  - assert (q = 0 + q)%Qc as Hq0 by ring. rewrite Hq0.
    apply Qcplus_le_compat; [done|by apply IH].
Qed.

Lemma all_zero_Fin qs :
  forallb (fun s => xeqb s (Fin 0%Qc)) (map Fin qs) = true ->
  Forall (fun q => q = 0%Qc) qs.
Proof.
  induction qs as [|q qs IH]; simpl; [constructor|].
  intros [Hq Hr]%andb_prop. constructor; [|by apply IH].
  by apply bool_decide_eq_true in Hq.
Qed.

Lemma qsum_all_zero qs : Forall (fun q => q = 0%Qc) qs -> qsum qs = 0%Qc.
Proof. induction 1 as [|q qs -> _ IH]; simpl; [done|]. rewrite IH. ring. Qed.

Lemma xdiv_one x : xdiv x (Fin 1%Qc) = x.
Proof.
  destruct x as [q| | |]; try reflexivity. simpl.
  destruct (decide (1 = 0)%Qc) as [?|_]; [done|]. f_equal. by field.
Qed.

Lemma map_xdiv_one xs : map (fun s => xdiv s (Fin 1%Qc)) xs = xs.
Proof. induction xs as [|x xs IH]; simpl; [done|]. by rewrite xdiv_one, IH. Qed.

(** X5.  In exact arithmetic the raw weights of a score vector of
    non-negative numbers are as many as the scores and each lies in
    [0, 1]. *)
Theorem raw_weights_unit_interval (xs : list xnum) :
  Forall nonneg xs ->
  length (raw_weights xs) = length xs /\ Forall in_unit (raw_weights xs).
Proof.
  intros Hxs. split; [apply length_map|].
  destruct (forallb (fun s => feqb s fzero) xs) eqn:Hz.
  - destruct (nonneg_Fin xs Hxs) as (qs & -> & Hqs).
    pose proof (all_zero_Fin qs Hz) as Hall.
    unfold raw_weights, guarded_norm. rewrite l1_norm_Fin by done.
    rewrite (qsum_all_zero qs Hall). simpl.
    rewrite map_xdiv_one. clear Hz Hxs Hqs.
    induction Hall as [|q qs -> _ IH]; constructor; [|done].
    simpl. split; discriminate.
  - destruct (raw_weights_sum xs Hxs Hz) as (n & Hn & Hpos & -> & _).
    destruct (nonneg_Fin xs Hxs) as (qs & -> & Hqs).
    rewrite l1_norm_Fin in Hn by done. injection Hn as <-.
    assert (qsum qs <> 0%Qc) as Hne by (intros Heq; rewrite Heq in Hpos; done).
    simpl. rewrite xdiv_Fin by done. apply list.Forall_forall.
    intros x Hx.
    apply list_elem_of_fmap in Hx as (q' & -> & Hq').
    apply list_elem_of_fmap in Hq' as (q & -> & Hq).
    pose proof (qsum_ge q qs Hqs Hq) as Hle.
    assert (0 <= q)%Qc as Hq0.
    { apply (proj1 (list.Forall_forall _ _) Hqs q Hq). }
    simpl. split.
    + apply (Qcmult_le_mono_pos_r _ _ (qsum qs) Hpos).
      assert (q / qsum qs * qsum qs = q)%Qc as -> by (by field).
      assert (0 * qsum qs = 0)%Qc as -> by ring. done.
    + apply (Qcmult_le_mono_pos_r _ _ (qsum qs) Hpos).
      assert (q / qsum qs * qsum qs = q)%Qc as -> by (by field).
      assert (1 * qsum qs = qsum qs)%Qc as -> by ring. done.
Qed.

Lemma raw_weights_unit_interval_witness :
  length (raw_weights (scores two_workers)) = 2%nat /\
  Forall in_unit (raw_weights (scores two_workers)).
Proof.
  apply (raw_weights_unit_interval (scores two_workers)).
  repeat constructor; discriminate.
Defined.

Lemma qsum_scale c qs : qsum (map (fun q => c * q)%Qc qs) = (c * qsum qs)%Qc.
Proof. induction qs as [|q qs IH]; simpl; [ring|]. rewrite IH. ring. Qed.

Lemma fmul_Fin c qs :
  map (fun s => fmul (Fin c) s) (map Fin qs) = map Fin (map (fun q => c * q)%Qc qs).
Proof. induction qs as [|q qs IH]; [done|]. simpl in *. by rewrite IH. Qed.

Lemma all_zero_scale c qs :
  Forall (fun q => q = 0%Qc) qs -> map (fun q => c * q)%Qc qs = qs.
Proof.
  induction 1 as [|q qs -> _ IH]; simpl; [done|]. rewrite IH. f_equal. ring.
Qed.

Lemma raw_weights_Fin qs :
  Forall (fun q => 0 <= q)%Qc qs -> qsum qs <> 0%Qc ->
  raw_weights (map Fin qs) = map Fin (map (fun q => q / qsum qs)%Qc qs).
Proof.
  intros Hqs Hne. unfold raw_weights, guarded_norm. rewrite l1_norm_Fin by done.
  simpl. rewrite bool_decide_eq_false_2 by done. simpl. by apply xdiv_Fin.
Qed.

(** X6.  In exact arithmetic the raw weights do not depend on the scale of
    the scores: multiplying every score of a non-negative score vector by
    the same positive number leaves the raw weights as they are. *)
Theorem raw_weights_scale (xs : list xnum) (c : Qc) :
  (0 < c)%Qc -> Forall nonneg xs ->
  raw_weights (map (fun s => fmul (Fin c) s) xs) = raw_weights xs.
Proof.
  intros Hc (qs & -> & Hqs)%nonneg_Fin. rewrite fmul_Fin.
  assert (c <> 0%Qc) as Hc0 by (intros ->; done).
  destruct (decide (qsum qs = 0%Qc)) as [Hz|Hnz].
  - assert (Forall (fun q => q = 0%Qc) qs) as Hall.
    { apply list.Forall_forall. intros q Hq.
      pose proof (qsum_ge q qs Hqs Hq) as Hle. rewrite Hz in Hle.
      apply Qcle_antisym; [done|].
      apply (proj1 (list.Forall_forall _ _) Hqs q Hq). }
    by rewrite all_zero_scale.
  - assert (Forall (fun q => 0 <= q)%Qc (map (fun q => c * q)%Qc qs)) as Hqs'.
    { apply list.Forall_forall. intros q' (q & -> & Hq)%list_elem_of_fmap.
      apply Qcmult_nonneg_nonneg; [by apply Qclt_le_weak|].
      apply (proj1 (list.Forall_forall _ _) Hqs q Hq). }
    assert (qsum (map (fun q => c * q)%Qc qs) <> 0%Qc) as Hnz'.
    { rewrite qsum_scale. intros [?|?]%Qcmult_integral; done. }
    rewrite (raw_weights_Fin _ Hqs' Hnz'), (raw_weights_Fin _ Hqs Hnz).
    f_equal. rewrite qsum_scale. rewrite map_map. apply map_ext.
    intros q. by field.
Qed.

Lemma raw_weights_scale_witness :
  raw_weights (map (fun s => fmul (Fin (Q2Qc 3)) s) (scores two_workers)) =
  raw_weights (scores two_workers).
Proof.
  apply (raw_weights_scale (scores two_workers) (Q2Qc 3)).
  - reflexivity.
  - repeat constructor; discriminate.
Defined.

Lemma l1_norm_NaN (xs : list xnum) : NaN ∈ xs -> l1_norm xs = NaN.
Proof.
  unfold l1_norm. rewrite fsum_xsum. induction xs as [|x xs IH]; intros Hin;
    [by apply elem_of_nil in Hin|].
  apply elem_of_cons in Hin as [<-|Hin]; cbn [map foldr]; [done|].
  rewrite (IH Hin). by destruct (fabs x).
Qed.

(** X7.  In exact arithmetic, when a score is NaN the L1 norm is NaN, the
    guard replaces it by 1 and the raw weights are the scores themselves:
    the NaN is not replaced and the other scores are not normalised. *)
Theorem raw_weights_nan (xs : list xnum) :
  NaN ∈ xs -> guarded_norm xs = Fin 1%Qc /\ raw_weights xs = xs.
Proof.
  intros Hin. unfold raw_weights, guarded_norm. rewrite (l1_norm_NaN xs Hin).
  simpl. split; [done|]. apply map_xdiv_one.
Qed.

Lemma raw_weights_nan_witness :
  guarded_norm [Fin (Q2Qc (1 # 2)); NaN] = Fin 1%Qc /\
  raw_weights [Fin (Q2Qc (1 # 2)); NaN] = [Fin (Q2Qc (1 # 2)); NaN].
Proof.
  apply (raw_weights_nan [Fin (Q2Qc (1 # 2)); NaN]).
  apply elem_of_cons. right. apply list_elem_of_singleton. reflexivity.
Defined.

(** ** Further properties of the membership resync *)

Section ResyncMore.
Context {R F : Type} `{Dtype F}.

Lemma resync_metagraph_stores (synced : Metagraph.t) (self : Validator R F) :
  metagraph (resync_metagraph synced self).1 = synced.
Proof.
  unfold resync_metagraph. simpl. destruct (decide _) as [?|_]; [done|].
  destruct (zero_replaced 0 _ _ _) as [sc [[]|e]]; simpl; [|done].
  destruct (decide _) as [?|?]; simpl; [|done].
  by destruct (grow_scores _ _ _).
Qed.

Lemma resync_metagraph_same_axons (synced : Metagraph.t) (self : Validator R F) :
  Metagraph.axons (metagraph self) = Metagraph.axons synced ->
  resync_metagraph synced self = (set_metagraph synced self, Ok ()).
Proof. intros Hax. unfold resync_metagraph. by destruct (decide _). Qed.

(** X8.  Whatever a resync did, raise included, a second resync against a
    snapshot with the same axons does nothing but store the snapshot: it
    returns normally and leaves hotkeys and scores as the first one left
    them. *)
Theorem resync_metagraph_twice (synced again : Metagraph.t) (self : Validator R F) :
  Metagraph.axons again = Metagraph.axons synced ->
  let once := (resync_metagraph synced self).1 in
  (resync_metagraph again once).2 = Ok () /\
  hotkeys (resync_metagraph again once).1 = hotkeys once /\
  scores (resync_metagraph again once).1 = scores once /\
  metagraph (resync_metagraph again once).1 = again.
Proof.
  intros Hax once. rewrite (resync_metagraph_same_axons again once); [done|].
  unfold once. by rewrite resync_metagraph_stores.
Qed.

(** X9.  A resync that met a shrunken membership leaves the validator out of
    step for good: it raised once, and every later resync against a snapshot
    with the same axons returns normally while the validator still holds the
    old, longer list of hotkeys and as many scores as before. *)
Theorem resync_metagraph_stays_stale (synced again : Metagraph.t)
    (self : Validator R F) :
  (length (Metagraph.hotkeys synced) < length (hotkeys self))%nat ->
  Metagraph.axons (metagraph self) <> Metagraph.axons synced ->
  Metagraph.axons again = Metagraph.axons synced ->
  Metagraph.wf again -> Metagraph.wf synced ->
  let once := (resync_metagraph synced self).1 in
  let twice := resync_metagraph again once in
  (resync_metagraph synced self).2 = Raise IndexError /\
  twice.2 = Ok () /\
  hotkeys twice.1 = hotkeys self /\
  length (scores twice.1) = length (scores self) /\
  (length (Metagraph.hotkeys (metagraph twice.1)) < length (hotkeys twice.1))%nat /\
  ~ in_step twice.1.
Proof.
  intros Hshrink Hax Hsame [Hwa _] [Hws _] once twice.
  destruct (resync_metagraph_shrink_raises synced self Hshrink Hax) as (Hr & Hh & Hl).
  assert (twice = (set_metagraph again once, Ok ())) as Htwice.
  { apply resync_metagraph_same_axons. unfold once.
    by rewrite resync_metagraph_stores. }
  fold once in Hh, Hl.
  assert (twice.2 = Ok () /\ hotkeys twice.1 = hotkeys once /\
          scores twice.1 = scores once /\ metagraph twice.1 = again)
    as (Hr2 & Hh2 & Hs2 & Hm2) by (by rewrite Htwice).
  assert (length (Metagraph.hotkeys again) = length (Metagraph.hotkeys synced)) as Hlen.
  { by rewrite Hwa, Hws, Hsame. }
  split; [done|]. split; [done|]. split; [by rewrite Hh2|].
  split; [by rewrite Hs2|]. split.
  - rewrite Hm2, Hh2, Hh, Hlen. done.
  - intros (Hstep & _). rewrite Hm2, Hh2, Hh in Hstep. rewrite <- Hstep in Hlen. lia.
Qed.

End ResyncMore.

Lemma resync_metagraph_twice_witness :
  (resync_metagraph six_workers (resync_metagraph six_workers four_workers).1).2
    = Ok () /\
  scores (resync_metagraph six_workers (resync_metagraph six_workers four_workers).1).1
    = [0.5%float; 0.25%float; 0%float; 1%float; 0%float; 0%float].
Proof.
  destruct (resync_metagraph_twice six_workers six_workers four_workers eq_refl)
    as (Hr & _ & Hs & _).
  split; [exact Hr|]. rewrite Hs. reflexivity.
Defined.

Lemma resync_metagraph_stays_stale_witness :
  (resync_metagraph two_left four_workers).2 = Raise IndexError /\
  (resync_metagraph two_left (resync_metagraph two_left four_workers).1).2 = Ok () /\
  hotkeys (resync_metagraph two_left (resync_metagraph two_left four_workers).1).1
    = ["hk-0"; "hk-1"; "hk-2"; "hk-3"].
Proof.
  destruct (resync_metagraph_stays_stale two_left two_left four_workers)
    as (Hr & Hr2 & Hh & _).
  - simpl. lia.
  - discriminate.
  - reflexivity.
  - repeat split.
  - repeat split.
  - split; [exact Hr|]. split; [exact Hr2|]. rewrite Hh. reflexivity.
Defined.

(** ** The engine over a run of operations *)

Section EngineRuns.
Context {R F : Type} `{Dtype R} `{Dtype F} `{Cast R F}.
Variable process_weights_for_netuid : list Z -> list F -> result (list Z * list F).
Variable convert_weights_and_uids_for_emit : list Z -> list F -> result (list Z * list Z).
Variable subtensor_set_weights : list Z -> list Z -> result (bool * string).

Lemma update_scores_in_step (self : Validator R F) rewards uids :
  in_step self -> in_step (update_scores rewards uids self).1.
Proof.
  intros (Hh & Hl & Hw). unfold update_scores.
  destruct (decide _) as [_|_]; [done|].
  destruct (decide _) as [_|_]; [done|].
  destruct (scatter uids (sanitize rewards) (zeros (length (scores self))))
    as [sc|e] eqn:Hsc; [|done].
  apply (scatter_Forall (fun _ => True)) in Hsc as [Hlen _];
    [|by apply Forall_true|by apply Forall_true].
  unfold zeros in Hlen. rewrite length_replicate in Hlen.
  unfold in_step. simpl. split; [done|]. split; [|done].
  unfold moving_average. rewrite length_zip_with. lia.
Qed.

Lemma set_weights_unchanged (self : Validator R F) :
  (set_weights process_weights_for_netuid convert_weights_and_uids_for_emit
     subtensor_set_weights self).1.1 = self.
Proof.
  unfold set_weights. destruct (forallb _ _); [done|].
  destruct (process_weights_for_netuid _ _) as [[pu pw]|e]; [|done].
  by destruct (convert_weights_and_uids_for_emit _ _) as [[uu uw]|e].
Qed.

Lemma perform_in_step (o : operation R) (self : Validator R F) :
  in_step self ->
  match o with
  | ResyncMetagraph synced =>
      Metagraph.wf synced /\
      (length (hotkeys self) <= length (Metagraph.hotkeys synced))%nat
  | _ => True
  end ->
  in_step (perform process_weights_for_netuid convert_weights_and_uids_for_emit
             subtensor_set_weights o self).
Proof.
  intros Hs Ho. destruct o as [rewards uids|synced|]; simpl.
  - by apply update_scores_in_step.
  - destruct Ho as [Hw Hle]. by apply resync_metagraph_in_step.
  - by rewrite set_weights_unchanged.
Qed.

(** X10.  From construction on, over any run of score updates, weight
    emissions and resyncs in which the membership never shrinks, whether the
    operations succeed or raise, the validator stays in step with its
    metagraph: it holds the hotkeys of the stored snapshot and exactly one
    score per neuron of it. *)
Theorem engine_stays_in_step (m : Metagraph.t) (alpha : R)
    (os : list (operation R)) :
  Metagraph.wf m ->
  never_shrinks process_weights_for_netuid convert_weights_and_uids_for_emit
    subtensor_set_weights os (__init__ (F := F) m alpha) ->
  let self :=
    perform_all process_weights_for_netuid convert_weights_and_uids_for_emit
      subtensor_set_weights os (__init__ (F := F) m alpha) in
  in_step self /\
  hotkeys self = Metagraph.hotkeys (metagraph self) /\
  length (scores self) = Metagraph.n (metagraph self).
Proof.
  intros Hwf Hns self.
  assert (in_step (__init__ (F := F) m alpha)) as Hinit.
  { destruct Hwf as [Hh Hn]. unfold in_step, __init__, zeros, Metagraph.wf. simpl.
    rewrite length_replicate. done. }
  assert (in_step self) as Hs.
  { unfold self, perform_all. revert Hns Hinit.
    generalize (__init__ (F := F) m alpha) as st.
    induction os as [|o os IH]; intros st Hns Hst; simpl in *; [done|].
    destruct Hns as [Ho Hns]. apply IH; [done|]. by apply perform_in_step. }
  split; [done|]. destruct Hs as (Hh & Hl & _ & Hn). split; [done|].
  by rewrite Hl, Hh, Hn.
Qed.

End EngineRuns.

Lemma engine_stays_in_step_witness :
  in_step (perform_all shape_nothing quantize_to_one submission_accepted
             [UpdateScores [1%float] [0]; ResyncMetagraph six_workers; SetWeights;
              UpdateScores [1%float; 0.5%float] [5; 9]]
             (__init__ (metagraph four_workers) one_fifth)).
Proof.
  apply (engine_stays_in_step shape_nothing quantize_to_one submission_accepted
           (metagraph four_workers) one_fifth).
  - repeat split.
  - simpl. repeat split. lia.
Defined.

(** ** The API branch and the dispatch loop *)

Section LoopFacts.
Context {R F : Type}.
Variable G : Type.
Variable draw : G -> list Z -> nat -> list Z * G.
Variable check_uid_availability : Metagraph.t -> Z -> bool.
Variable dendrite_query :
  list AxonInfo -> BitrecsRequest -> result (list BitrecsRequest).
Variable concurrent_forward : Validator R F -> Validator R F * result unit.
Variable sync : Validator R F -> Validator R F * result unit.
Variable sample_size : nat.
Variable api_enabled : bool.
Variable api_exclusive : bool.

Local Abbreviation serve :=
  (serve_api_request G draw check_uid_availability dendrite_query).
Local Abbreviation iteration :=
  (run_iteration G draw check_uid_availability dendrite_query concurrent_forward
     sync sample_size api_enabled api_exclusive).
Local Abbreviation loop :=
  (run_loop G draw check_uid_availability dendrite_query concurrent_forward
     sync sample_size api_enabled api_exclusive).

Lemma select_top_result_elem req rs r :
  select_top_result req rs = Some r -> r ∈ rs /\ acceptable req r.
Proof.
  intros (i & Hi & Hacc & _)%select_top_result_Some. split; [|done].
  apply list_elem_of_lookup. by exists i.
Qed.

(** X11.  What [api_forward] returns for a request is never the request
    itself nor a reply of the wrong size: once the API branch has run, either
    the caller is still blocked on an object that was not touched, or it
    gets the reply that the arbiter picked from the batch the transport
    returned for this very request, a reply with exactly the number of
    results asked for. *)
Theorem api_forward_answer (g : G) (self : Validator R F) (synapse : BitrecsRequest) :
  let '(swe', r, _) := serve g self sample_size (api_forward_submit synapse) in
  input_synapse swe' = synapse /\
  match api_forward_result swe' with
  | Some answer =>
      r = Ok FallThrough /\
      Z.of_nat (length (results answer)) = num_results synapse /\
      exists axons responses,
        dendrite_query axons synapse = Ok responses /\
        answer ∈ responses /\
        select_top_result synapse responses = Some answer
  | None => r <> Ok FallThrough /\ swe' = api_forward_submit synapse
  end.
Proof.
  unfold serve_api_request, api_forward_result. simpl.
  destruct (choose_uids _ _ _ _ _ _) as [[chosen|e] g1]; simpl; [|done].
  destruct (chosen_axons _ _) as [axons|e]; simpl; [|done].
  destruct (dendrite_query axons synapse) as [responses|e] eqn:Hq; simpl; [|done].
  destruct (select_top_result synapse responses) as [answer|] eqn:Hs; simpl; [|done].
  destruct (select_top_result_elem _ _ _ Hs) as [Hin Hacc].
  split; [done|]. split; [done|]. split; [done|]. by exists axons, responses.
Qed.

Lemma serve_api_request_well_answered g (self : Validator R F) swe :
  event swe = false ->
  let '(swe', _, _) := serve g self sample_size swe in
  input_synapse swe' = input_synapse swe /\ well_answered swe' /\
  (event swe' = false -> swe' = swe).
Proof.
  intros He. unfold serve_api_request, well_answered.
  destruct (choose_uids _ _ _ _ _ _) as [[chosen|e] g1]; simpl;
    [|by rewrite He].
  destruct (chosen_axons _ _) as [axons|e]; simpl; [|by rewrite He].
  destruct (dendrite_query _ _) as [responses|e]; simpl; [|by rewrite He].
  destruct (select_top_result _ _) as [answer|] eqn:Hs; simpl; [|by rewrite He].
  split; [done|]. split; [|done]. intros _.
  by destruct (select_top_result_elem _ _ _ Hs).
Qed.

Lemma serve_api_request_input g (self : Validator R F) swe :
  input_synapse (serve g self sample_size swe).1.1 = input_synapse swe.
Proof.
  unfold serve_api_request.
  destruct (choose_uids _ _ _ _ _ _) as [[chosen|e] g1]; [|done].
  destruct (chosen_axons _ _) as [axons|e]; [|done].
  destruct (dendrite_query _ _) as [responses|e]; [|done].
  by destruct (select_top_result _ _).
Qed.

(** One pass takes at most one request, the oldest, off the queue. *)
Lemma run_iteration_requests should_exit (st : Loop R F G) :
  exists taken,
    handled (iteration should_exit st).1 = handled st ++ taken /\
    (length taken <= 1)%nat /\
    map input_synapse (taken ++ api_queue (iteration should_exit st).1) =
      map input_synapse (api_queue st) /\
    (Forall (fun swe => event swe = false) (api_queue st) ->
       Forall well_answered taken /\
       Forall (fun swe => event swe = false) (api_queue (iteration should_exit st).1)) /\
    (api_enabled = false ->
       taken ++ api_queue (iteration should_exit st).1 = api_queue st).
Proof.
  unfold run_iteration, synthetic_forward.
  destruct (api_queue st) as [|swe q] eqn:Hq; simpl.
  - exists []. destruct api_exclusive; [|destruct (concurrent_forward _) as [? [[]|?]]];
      simpl; try destruct should_exit; simpl; rewrite ?app_nil_r;
      repeat split; try done; lia.
  - destruct api_enabled eqn:Hen.
    + pose proof (serve_api_request_well_answered (random st) (neuron st) swe) as Hw.
      pose proof (serve_api_request_input (random st) (neuron st) swe) as Hin.
      destruct (serve (random st) (neuron st) sample_size swe) as [[swe' r] g'].
      simpl in Hin. exists [swe'].
      assert (event swe = false -> input_synapse swe' = input_synapse swe /\
              well_answered swe') as Hw'
        by (intros He; destruct (Hw He) as (? & ? & _); by split).
      clear Hw.
      destruct r as [[]|e]; simpl; try destruct should_exit; simpl;
        (split; [done|]); (split; [simpl; lia|]); (split; [by rewrite Hin|]);
        (split; [|done]); intros Hall; inversion Hall; subst;
        (split; [|done]); (constructor; [by apply Hw'|constructor]).
    + exists [swe].
      destruct api_exclusive; [|destruct (concurrent_forward _) as [? [[]|?]]];
        simpl; try destruct should_exit; simpl;
        (split; [done|]); (split; [simpl; lia|]); (split; [done|]);
        (split; [|done]); intros Hall; inversion Hall as [|? ? He Hq']; subst;
        (split; [|done]); (constructor; [intros Ht; congruence|constructor]).
Qed.

(** The state a pass starts from once the arrivals are on the queue. *)
Lemma run_loop_cons arrived should_exit schedule (st : Loop R F G) :
  loop ((arrived, should_exit) :: schedule) st =
  let st1 := {| neuron := neuron st; step := step st;
                api_queue := api_queue st ++ arrived;
                handled := handled st; slept := slept st;
                random := random st |} in
  if (iteration should_exit st1).2 then ((iteration should_exit st1).1, 1%nat)
  else ((loop schedule (iteration should_exit st1).1).1,
        S (loop schedule (iteration should_exit st1).1).2).
Proof.
  simpl. destruct (iteration should_exit _) as [st2 returned]. simpl.
  destruct returned; [done|]. by destruct (loop schedule st2).
Qed.

(** X12.  The loop neither loses, nor repeats, nor reorders requests: after
    any number of passes the requests it took off the queue followed by
    those still queued are, in order of arrival, the requests that were
    there and those that arrived before the passes made; each pass takes at
    most one, the oldest, whether the pass ends normally, by [continue] or
    by an exception. *)
Theorem run_loop_keeps_requests (schedule : list (list SynapseWithEvent * bool))
    (st : Loop R F G) :
  let st' := (loop schedule st).1 in
  let passes := (loop schedule st).2 in
  (passes <= length schedule)%nat /\
  map input_synapse (handled st' ++ api_queue st') =
    map input_synapse
      (handled st ++ api_queue st ++ concat (take passes schedule).*1) /\
  (length (handled st') <= length (handled st) + passes)%nat.
Proof.
  revert st. induction schedule as [|[arrived should_exit] schedule IH]; intros st.
  - simpl. rewrite app_nil_r. split; [done|]. split; [done|lia].
  - rewrite run_loop_cons. cbv zeta.
    set (st1 := {| neuron := neuron st; step := step st;
                   api_queue := api_queue st ++ arrived;
                   handled := handled st; slept := slept st;
                   random := random st |}).
    destruct (run_iteration_requests should_exit st1)
      as (taken & Hh & Hlen & Hin & _).
    destruct (iteration should_exit st1) as [st2 returned]. simpl in *.
    assert (map input_synapse (handled st2 ++ api_queue st2) =
            map input_synapse (handled st ++ api_queue st ++ arrived)) as Hstep.
    { rewrite Hh, <- app_assoc, !map_app. f_equal. rewrite <- !map_app. done. }
    destruct returned; simpl.
    + rewrite app_nil_r. split; [lia|]. split; [done|]. rewrite Hh, length_app. lia.
    + destruct (IH st2) as (Hp & Hc & Hl). split; [lia|]. split.
      * rewrite Hc. rewrite (app_assoc (handled st2)), !(map_app _ (_ ++ _)), Hstep.
        rewrite !map_app. by rewrite <- !app_assoc.
      * rewrite Hh, length_app in Hl. lia.
Qed.

(** X13.  When every request comes onto the queue with its event unset, as
    [api_forward] makes it, every request the loop has answered carries a
    reply with exactly the number of results it asked for, and no request
    still on the queue is marked as answered. *)
Theorem run_loop_answers (schedule : list (list SynapseWithEvent * bool))
    (st : Loop R F G) :
  Forall (fun swe => event swe = false) (api_queue st) ->
  Forall (fun pass => Forall (fun swe => event swe = false) pass.1) schedule ->
  Forall well_answered (handled st) ->
  Forall well_answered (handled (loop schedule st).1) /\
  Forall (fun swe => event swe = false) (api_queue (loop schedule st).1).
Proof.
  revert st. induction schedule as [|[arrived should_exit] schedule IH];
    intros st Hq Hs Hh; [done|].
  rewrite run_loop_cons. cbv zeta.
  set (st1 := {| neuron := neuron st; step := step st;
                 api_queue := api_queue st ++ arrived;
                 handled := handled st; slept := slept st;
                 random := random st |}).
  inversion Hs as [|? ? Harr Hs']; subst. simpl in Harr.
  destruct (run_iteration_requests should_exit st1)
    as (taken & Hh1 & _ & _ & Hw & _).
  destruct Hw as [Hwt Hq2]; [by apply Forall_app|].
  assert (Forall well_answered (handled (iteration should_exit st1).1)) as Hh2.
  { rewrite Hh1. by apply Forall_app. }
  destruct (iteration should_exit st1) as [st2 returned]. simpl in *.
  destruct returned; simpl; [done|]. by apply IH.
Qed.


End LoopFacts.

Lemma run_loop_answers_witness :
  Forall well_answered
    (handled (run_loop unit draw_head always_available (one_reply 5) quiet_forward
                quiet_sync 20 true true two_passes loop_with_request).1) /\
  map event
    (handled (run_loop unit draw_head always_available (one_reply 5) quiet_forward
                quiet_sync 20 true true two_passes loop_with_request).1)
  = [true; false].
Proof.
  split; [|reflexivity].
  apply (run_loop_answers unit draw_head always_available (one_reply 5)
           quiet_forward quiet_sync 20 true true two_passes loop_with_request).
  - repeat constructor.
  - repeat constructor.
  - constructor.
Defined.


(** ** Peer selection *)

Section SelectionFacts.
Variable G : Type.
Variable draw : G -> list Z -> nat -> list Z * G.
Hypothesis draw_spec : draws_without_replacement G draw.

(** Of the uids that [get_random_uids] returned, all different, the
    API branch picks at most ten: it raises [ValueError] exactly when there
    is none, and otherwise queries as many miners as there are uids, capped
    at ten, all different and all among those uids. *)
Lemma chosen_uids_at_most_ten (g : G) (available_uids : list Z) :
  NoDup available_uids ->
  match (random_sample G draw g available_uids
           (clamp 1 10 (length available_uids))).1 with
  | Ok chosen_uids =>
      available_uids <> [] /\
      length chosen_uids = Nat.min 10 (length available_uids) /\
      NoDup chosen_uids /\ chosen_uids ⊆ available_uids
  | Raise e => e = ValueError /\ available_uids = []
  end.
Proof.
  intros Hnd. destruct available_uids as [|u l] eqn:Hl.
  - unfold random_sample, clamp. simpl. done.
  - rewrite <- Hl in *. assert (0 < length available_uids)%nat as Hpos
      by (rewrite Hl; simpl; lia).
    assert (clamp 1 10 (length available_uids) = Nat.min 10 (length available_uids))
      as Hclamp by (unfold clamp; lia).
    rewrite Hclamp. unfold random_sample.
    destruct (decide _) as [Hk|?]; [|lia].
    destruct (draw_spec g available_uids _ Hk) as [Hlen Hsub].
    destruct (draw g available_uids _) as [chosen g'].
    cbn [fst] in *.
    split; [by rewrite Hl|]. split; [done|]. split.
    + by eapply submseteq_NoDup.
    + intros x Hx. by eapply elem_of_submseteq.
Qed.

End SelectionFacts.

Lemma chosen_uids_at_most_ten_witness :
  (random_sample unit draw_head ()
     (Z.of_nat <$> seq 0 12) (clamp 1 10 12)).1 = Ok (Z.of_nat <$> seq 0 10) /\
  NoDup (Z.of_nat <$> seq 0 10).
Proof.
  pose proof (chosen_uids_at_most_ten unit draw_head draw_head_spec ()
                (Z.of_nat <$> seq 0 12)) as Hc.
  assert (NoDup (Z.of_nat <$> seq 0 12)) as Hnd.
  { apply NoDup_fmap_2; [intros x y; lia|apply NoDup_seq]. }
  specialize (Hc Hnd). split; [reflexivity|].
  change (random_sample unit draw_head () (Z.of_nat <$> seq 0 12)
            (clamp 1 10 (length (Z.of_nat <$> seq 0 12)))).1
    with (@Ok (list Z) (Z.of_nat <$> seq 0 10)) in Hc.
  apply Hc.
Defined.

(** ** The background thread *)



(** ** The miner *)

Lemma list_index_Some x l i :
  Miner.list_index x l = Some i <->
  l !! i = Some x /\ forall j, (j < i)%nat -> l !! j <> Some x.
Proof.
  revert i. induction l as [|y l IH]; intros i; simpl.
  - split; [done|]. by intros [? _].
  - destruct (String.eqb y x) eqn:Hy.
    + apply String.eqb_eq in Hy as ->. split.
      * intros [= <-]. split; [done|]. intros j Hj. lia.
      * intros [Hi Hmin]. destruct i as [|i]; [done|].
        exfalso. by apply (Hmin 0%nat); [lia|].
    + apply String.eqb_neq in Hy. rewrite fmap_Some. split.
      * intros (k & Hk & ->). apply IH in Hk as [Hk Hmin]. split; [done|].
        intros [|j] Hj; simpl; [by intros [= ->]|]. apply Hmin. lia.
      * intros [Hi Hmin]. destruct i as [|k]; simpl in Hi; [by injection Hi as ->|].
        exists k. split; [|done]. apply IH. split; [done|].
        intros j Hj. apply (Hmin (S j)). lia.
Qed.

Lemma list_index_None x l : Miner.list_index x l = None <-> x ∉ l.
Proof.
  induction l as [|y l IH]; simpl.
  - split; [intros _; apply not_elem_of_nil|done].
  - destruct (String.eqb y x) eqn:Hy.
    + apply String.eqb_eq in Hy as ->. split; [done|].
      intros Hn. exfalso. apply Hn. by left.
    + apply String.eqb_neq in Hy. rewrite fmap_None, IH, not_elem_of_cons.
      split; [by intros ?; split; [congruence|]|by intros [_ ?]].
Qed.

Section MinerFacts.
Context {F : Type}.

(** X16.  [blacklist] looks the caller's hotkey up with [index] before it
    asks whether the hotkey is registered: a hotkey that is not in the
    metagraph makes it raise [ValueError], whatever the configuration, and
    the answer "Unrecognized hotkey" is never given. *)
Theorem blacklist_never_unrecognized (self : Miner.t F) (synapse : Miner.Synapse) :
  Miner.blacklist self synapse <> Ok (true, "Unrecognized hotkey") /\
  (forall d hk,
     Miner.dendrite synapse = Some d -> Miner.hotkey d = Some hk ->
     hk ∉ Miner.hotkeys self ->
     Miner.blacklist self synapse = Raise ValueError).
Proof.
  unfold Miner.blacklist. split.
  - destruct (Miner.dendrite synapse) as [d|]; [|done].
    destruct (Miner.hotkey d) as [hk|]; [|done].
    destruct (Miner.list_index hk (Miner.hotkeys self)) as [uid|] eqn:Hi; [|done].
    assert (hk ∈ Miner.hotkeys self) as Hin.
    { apply list_index_Some in Hi as [Hi _]. apply list_elem_of_lookup. by exists uid. }
    rewrite (bool_decide_eq_true_2 _ Hin), andb_false_r.
    destruct (Miner.force_validator_permit self); [|done].
    destruct (Miner.validator_permit self !! uid) as [[]|]; done.
  - intros d hk -> -> Hout. by rewrite (proj2 (list_index_None _ _) Hout).
Qed.

(** X17.  [blacklist] lets a request through exactly when its dendrite names
    a hotkey of the metagraph and, if validator permits are enforced, the
    first neuron with that hotkey holds one; the answer is then "Hotkey
    recognized!". *)
Theorem blacklist_lets_through (self : Miner.t F) (synapse : Miner.Synapse)
    (reason : string) :
  Miner.blacklist self synapse = Ok (false, reason) <->
  reason = "Hotkey recognized!" /\
  exists d hk uid,
    Miner.dendrite synapse = Some d /\ Miner.hotkey d = Some hk /\
    Miner.hotkeys self !! uid = Some hk /\
    (forall j, (j < uid)%nat -> Miner.hotkeys self !! j <> Some hk) /\
    (Miner.force_validator_permit self = true ->
     Miner.validator_permit self !! uid = Some true).
Proof.
  unfold Miner.blacklist. split.
  - destruct (Miner.dendrite synapse) as [d|] eqn:Hd; [|done].
    destruct (Miner.hotkey d) as [hk|] eqn:Hk; [|done].
    destruct (Miner.list_index hk (Miner.hotkeys self)) as [uid|] eqn:Hi; [|done].
    apply list_index_Some in Hi as [Hi Hmin].
    assert (hk ∈ Miner.hotkeys self) as Hin
      by (apply list_elem_of_lookup; by exists uid).
    rewrite (bool_decide_eq_true_2 _ Hin), andb_false_r.
    destruct (Miner.force_validator_permit self) eqn:Hf.
    + destruct (Miner.validator_permit self !! uid) as [[]|] eqn:Hp; try done.
      intros [= <-]. split; [done|]. by exists d, hk, uid.
    + intros [= <-]. split; [done|]. by exists d, hk, uid.
  - intros (-> & d & hk & uid & -> & -> & Hi & Hmin & Hp).
    rewrite (proj2 (list_index_Some hk _ uid) (conj Hi Hmin)).
    assert (hk ∈ Miner.hotkeys self) as Hin
      by (apply list_elem_of_lookup; by exists uid).
    rewrite (bool_decide_eq_true_2 _ Hin), andb_false_r.
    destruct (Miner.force_validator_permit self); [|done].
    by rewrite (Hp eq_refl).
Qed.

(** X18.  With one stake per hotkey, a request that [blacklist] lets through
    always gets a priority: [priority] does not raise and returns the stake
    of the first neuron that has the caller's hotkey. *)
Theorem priority_after_blacklist (zero : F) (self : Miner.t F)
    (synapse : Miner.Synapse) (reason : string) :
  length (Miner.stake self) = length (Miner.hotkeys self) ->
  Miner.blacklist self synapse = Ok (false, reason) ->
  exists d hk uid s,
    Miner.dendrite synapse = Some d /\ Miner.hotkey d = Some hk /\
    Miner.hotkeys self !! uid = Some hk /\
    (forall j, (j < uid)%nat -> Miner.hotkeys self !! j <> Some hk) /\
    Miner.stake self !! uid = Some s /\
    Miner.priority zero self synapse = Ok s.
Proof.
  intros Hlen Hb. unfold Miner.blacklist, Miner.priority in *.
  destruct (Miner.dendrite synapse) as [d|] eqn:Hd; [|done].
  destruct (Miner.hotkey d) as [hk|] eqn:Hk; [|done].
  destruct (Miner.list_index hk (Miner.hotkeys self)) as [uid|] eqn:Hi; [|done].
  apply list_index_Some in Hi as [Hi Hmin].
  destruct (lookup_lt_is_Some_2 (Miner.stake self) uid) as [s Hs].
  { rewrite Hlen. by eapply lookup_lt_Some. }
  rewrite Hs. by exists d, hk, uid, s.
Qed.

End MinerFacts.

Lemma priority_after_blacklist_witness :
  Miner.blacklist sample_miner (synapse_from "hk-1") = Ok (false, "Hotkey recognized!") /\
  Miner.priority 0%float sample_miner (synapse_from "hk-1") = Ok 200%float /\
  exists d hk uid s,
    Miner.dendrite (synapse_from "hk-1") = Some d /\ Miner.hotkey d = Some hk /\
    Miner.hotkeys sample_miner !! uid = Some hk /\
    (forall j, (j < uid)%nat -> Miner.hotkeys sample_miner !! j <> Some hk) /\
    Miner.stake sample_miner !! uid = Some s /\
    Miner.priority 0%float sample_miner (synapse_from "hk-1") = Ok s.
Proof.
  split; [reflexivity|]. split; [reflexivity|].
  apply (priority_after_blacklist 0%float sample_miner (synapse_from "hk-1")
           "Hotkey recognized!"); reflexivity.
Defined.

Lemma dict_get_set_eq key value d :
  Miner.dict_get key (Miner.dict_set key value d) = Some value.
Proof.
  induction d as [|[k v] d IH]; simpl.
  - by rewrite String.eqb_refl.
  - destruct (String.eqb k key) eqn:Hk; simpl; by rewrite Hk.
Qed.

Lemma dict_get_set_ne key key' value d :
  key <> key' ->
  Miner.dict_get key' (Miner.dict_set key value d) = Miner.dict_get key' d.
Proof.
  intros Hne. induction d as [|[k v] d IH]; simpl.
  - by rewrite (proj2 (String.eqb_neq key key') Hne).
  - destruct (String.eqb k key) eqn:Hk; simpl; [|by rewrite IH].
    apply String.eqb_eq in Hk as ->.
    by rewrite (proj2 (String.eqb_neq key key') Hne).
Qed.

Lemma dict_set_keys key value d :
  Miner.dict_get key d <> None ->
  (Miner.dict_set key value d).*1 = d.*1.
Proof.
  induction d as [|[k v] d IH]; simpl; [done|].
  destruct (String.eqb k key) eqn:Hk; simpl; [done|].
  intros Hg. f_equal. by apply IH.
Qed.

Lemma length_omap_le {A B} (f : A -> option B) l :
  (length (omap f l) <= length l)%nat.
Proof.
  induction l as [|x l IH]; simpl; [done|].
  destruct (f x); simpl; change (list_omap A B f l) with (omap f l); lia.
Qed.

Lemma length_omap_eq {A B} (f : A -> option B) l :
  length (omap f l) = length l <-> Forall (fun x => is_Some (f x)) l.
Proof.
  induction l as [|x l IH]; simpl; [by split; [constructor|]|].
  pose proof (length_omap_le f l) as Hle. destruct (f x) as [y|] eqn:Hf; simpl;
    change (list_omap A B f l) with (omap f l).
  - split.
    + intros [= Hl]. constructor; [by rewrite Hf|by apply IH].
    + intros Hall. inversion Hall; subst. f_equal. by apply IH.
  - split; [lia|]. intros Hall. inversion Hall as [|? ? [? Hx] ?]; subst.
    congruence.
Qed.

(** [len] counts characters where [String.length] counts bytes. *)
Lemma len_counts_characters :
  Miner.len "é1" = 2%nat /\ String.length "é1" = 3%nat /\
  Miner.len "gpt-4o-mini" = String.length "gpt-4o-mini".
Proof. by vm_compute. Qed.

Lemma overrides_short_name :
  Miner.overrides (Some "é1") = None.
Proof. reflexivity. Qed.

Section MinerWork.
Context {F : Type}.
Variable query_llm : Miner.LLM -> string -> string -> Q -> string -> result string.
Variable Item : Type.
Variable str : Item -> string.
Variable UserProfile : Type.
Variable generate_prompt :
  string -> string -> Z -> bool -> UserProfile -> result string.
Variable tryparse_llm : string -> result (list Item).
Variable json_loads : string -> option Miner.json.
Variable repair_json : string -> option string.
Variable str_json : Miner.json -> string.
Variable re_product_name_sub : string -> string.
Variable re_reason_sub : string -> string.
Variable json_dumps : Miner.json -> string.
Variable tryparse_profile : string -> result UserProfile.
Variable utc_now : string.
Variable trace : bool.

Local Abbreviation do_work :=
  (Miner.do_work query_llm Item UserProfile generate_prompt tryparse_llm).
Local Abbreviation clean_item :=
  (Miner.clean_item Item str json_loads repair_json str_json re_product_name_sub
     re_reason_sub json_dumps).
Local Abbreviation forward :=
  (Miner.forward query_llm Item str UserProfile generate_prompt tryparse_llm
     json_loads repair_json str_json re_product_name_sub re_reason_sub json_dumps
     tryparse_profile utc_now trace).


(** [do_work] raises only what generating the prompt raises.  When it
    returns recommendations, they are what [tryparse_llm] made of an answer
    of at least ten characters that the model gave to the generated prompt;
    a query that raises, an answer of fewer than ten characters and a parse
    that raises all give the empty list. *)
Lemma do_work_outcome (user_prompt context : string) (num_recs : Z)
    (server : Miner.LLM) (model : string) (profile : UserProfile)
    (debug_prompts : bool) :
  match do_work user_prompt context num_recs server model profile debug_prompts with
  | Raise e =>
      generate_prompt user_prompt context num_recs debug_prompts profile = Raise e
  | Ok recs =>
      exists prompt,
        generate_prompt user_prompt context num_recs debug_prompts profile
          = Ok prompt /\
        match query_llm server model "You are a helpful assistant." 0 prompt with
        | Raise _ => recs = []
        | Ok llm_response =>
            if (Miner.len llm_response <? 10)%nat then recs = []
            else tryparse_llm llm_response = Ok recs \/
                 (recs = [] /\ is_ok (tryparse_llm llm_response) = false)
        end
  end.
Proof.
  unfold Miner.do_work.
  destruct (generate_prompt _ _ _ _ _) as [prompt|e]; simpl; [|done].
  destruct (query_llm _ _ _ _ prompt) as [answer|e] eqn:Hq.
  - destruct (Miner.len answer <? 10)%nat eqn:Hlen.
    + exists prompt. split; [done|]. by rewrite Hq, Hlen.
    + destruct (tryparse_llm answer) as [recs|e] eqn:Hp;
        exists prompt; (split; [done|]); rewrite Hq, Hlen, ?Hp; [by left|by right].
  - exists prompt. split; [done|]. by rewrite Hq.
Qed.

End MinerWork.

Section MinerForward.
Context {F : Type}.
Variable query_llm : Miner.LLM -> string -> string -> Q -> string -> result string.
Variable Item : Type.
Variable str : Item -> string.
Variable UserProfile : Type.
Variable generate_prompt :
  string -> string -> Z -> bool -> UserProfile -> result string.
Variable tryparse_llm : string -> result (list Item).
Variable json_loads : string -> option Miner.json.
Variable repair_json : string -> option string.
Variable str_json : Miner.json -> string.
Variable re_product_name_sub : string -> string.
Variable re_reason_sub : string -> string.
Variable json_dumps : Miner.json -> string.
Variable tryparse_profile : string -> result UserProfile.
Variable utc_now : string.
Variable trace : bool.

Local Abbreviation do_work :=
  (Miner.do_work query_llm Item UserProfile generate_prompt tryparse_llm).
Local Abbreviation clean_item :=
  (Miner.clean_item Item str json_loads repair_json str_json re_product_name_sub
     re_reason_sub json_dumps).
Local Abbreviation forward :=
  (Miner.forward query_llm Item str UserProfile generate_prompt tryparse_llm
     json_loads repair_json str_json re_product_name_sub re_reason_sub json_dumps
     tryparse_profile utc_now trace).
Local Abbreviation cleaned :=
  (Miner.cleaned re_product_name_sub re_reason_sub json_dumps).

Lemma clean_item_cleaned item recommendation :
  clean_item item = Some recommendation -> cleaned recommendation.
Proof.
  unfold Miner.clean_item, Miner.cleaned.
  destruct (Miner.load_item _ _ _) as [[| | | | |d]|]; try done.
  destruct (Miner.dict_get "name" d) as [name|]; [|done].
  set (d1 := Miner.dict_set "name" _ d).
  destruct (Miner.dict_get "reason" d1) as [reason|] eqn:Hr; intros [= <-].
  - eexists _, _. split; [done|]. split.
    + rewrite dict_get_set_ne by done. apply dict_get_set_eq.
    + intros v. rewrite dict_get_set_eq. intros [= <-]. by eexists.
  - eexists _, _. split; [done|]. split; [apply dict_get_set_eq|].
    intros v Hv. congruence.
Qed.

(** X20.  [forward] raises only what reading the user profile raises, and
    then leaves the miner as it was.  Otherwise it counts the request and
    replies with the query and the number of results of the request, an
    empty user and an empty context, and results, no more than the model
    gave, each of which is the dump of an object with a sanitised name. *)
Theorem forward_reply (self : Miner.t F) (synapse : Miner.Synapse) :
  let '(self', r) := forward self synapse in
  match r with
  | Raise e => self' = self /\ tryparse_profile (Miner.user synapse) = Raise e
  | Ok out =>
      Miner.total_request_in_interval self' =
        S (Miner.total_request_in_interval self) /\
      query (Miner.request out) = query (Miner.request synapse) /\
      num_results (Miner.request out) = num_results (Miner.request synapse) /\
      Miner.user out = "" /\ Miner.context out = "[]" /\
      Forall cleaned (results (Miner.request out)) /\
      forall profile items,
        tryparse_profile (Miner.user synapse) = Ok profile ->
        do_work (query (Miner.request synapse)) (Miner.context synapse)
          (num_results (Miner.request synapse)) (Miner.llm_provider self)
          (Miner.model self) profile trace = Ok items ->
        results (Miner.request out) = omap clean_item items /\
        (length (results (Miner.request out)) <= length items)%nat
  end.
Proof.
  unfold Miner.forward.
  destruct (tryparse_profile (Miner.user synapse)) as [profile|e]; [|done].
  simpl. split; [done|]. split; [done|]. split; [done|]. split; [done|].
  split; [done|]. split.
  - apply list.Forall_forall. intros recommendation Hin.
    apply list_elem_of_omap in Hin as (item & _ & Hc).
    by eapply clean_item_cleaned.
  - intros ? items [= <-] ->. split; [done|]. apply length_omap_le.
Qed.

(** X21.  When the model gives exactly as many recommendations as were
    asked for, the validator's arbiter accepts the miner's reply exactly
    when the clean-up drops none of them: one recommendation that does not
    load as an object with a name costs the miner the request. *)
Theorem forward_reply_accepted (self self' : Miner.t F)
    (synapse out : Miner.Synapse) (profile : UserProfile) (items : list Item) :
  tryparse_profile (Miner.user synapse) = Ok profile ->
  do_work (query (Miner.request synapse)) (Miner.context synapse)
    (num_results (Miner.request synapse)) (Miner.llm_provider self)
    (Miner.model self) profile trace = Ok items ->
  Z.of_nat (length items) = num_results (Miner.request synapse) ->
  forward self synapse = (self', Ok out) ->
  select_top_result (Miner.request synapse) [Miner.request out]
    = Some (Miner.request out) <->
  Forall (fun item => is_Some (clean_item item)) items.
Proof.
  intros Hp Hw Hn. unfold Miner.forward. rewrite Hp, Hw. intros [= _ <-].
  simpl. rewrite <- Hn, <- length_omap_eq.
  destruct (decide _) as [Heq|Hne].
  - split; [intros _; lia|done].
  - split; [done|]. intros Hl. rewrite Hl in Hne. done.
Qed.

(** X22.  A miner whose model is down, raising or giving fewer than ten
    characters at every query, still answers every request it can read the
    profile of: [forward] does not raise, adds one to
    [total_request_in_interval] and replies with no results, a reply that the
    validator's arbiter accepts only for a request that asked for no
    results. *)
Theorem forward_model_down (self : Miner.t F) (synapse : Miner.Synapse)
    (profile : UserProfile) :
  tryparse_profile (Miner.user synapse) = Ok profile ->
  (forall prompt answer,
     query_llm (Miner.llm_provider self) (Miner.model self)
       "You are a helpful assistant." 0 prompt = Ok answer ->
     (Miner.len answer < 10)%nat) ->
  exists self' out,
    forward self synapse = (self', Ok out) /\
    Miner.total_request_in_interval self' =
      S (Miner.total_request_in_interval self) /\
    results (Miner.request out) = [] /\
    (select_top_result (Miner.request synapse) [Miner.request out]
       = Some (Miner.request out) <->
     num_results (Miner.request synapse) = 0).
Proof.
  intros Hp Hdown. unfold Miner.forward. rewrite Hp.
  assert (match do_work (query (Miner.request synapse)) (Miner.context synapse)
                  (num_results (Miner.request synapse)) (Miner.llm_provider self)
                  (Miner.model self) profile trace with
          | Ok results => results
          | Raise _ => []
          end = []) as ->.
  { unfold Miner.do_work.
    destruct (generate_prompt _ _ _ _ _) as [prompt|e]; simpl; [|done].
    destruct (query_llm _ _ _ _ prompt) as [answer|e] eqn:Hq; [|done].
    apply Hdown in Hq. apply Nat.ltb_lt in Hq. by rewrite Hq. }
  eexists _, _. split; [done|]. simpl. split; [done|]. split; [done|].
  destruct (decide _) as [Heq|Hne].
  - split; [intros _; lia|done].
  - split; [done|]. intros H0. rewrite H0 in Hne. done.
Qed.

End MinerForward.

Lemma forward_reply_accepted_witness :
  select_top_result (Miner.request (synapse_from "hk-1")) [Miner.request sample_reply]
    = Some (Miner.request sample_reply) <->
  Forall (fun item => is_Some
            (Miner.clean_item string id toy_loads toy_repair toy_str id id
               toy_dumps item))
    ["sku-2"; "sku-3"; "sku-4"; "sku-5"; "sku-6"].
Proof.
  apply (forward_reply_accepted (canned_llm "a long enough answer") string id unit
           toy_prompt toy_parse toy_loads toy_repair toy_str id id toy_dumps
           toy_profile "2026-01-01T00:00:00" false sample_miner
           (Miner.count_request sample_miner) (synapse_from "hk-1") sample_reply
           ()); reflexivity.
Defined.

(** The model answers with five characters that take ten bytes. *)
Lemma forward_model_down_witness :
  exists self' out,
    Miner.forward (canned_llm "ééééé") string id unit toy_prompt
      toy_parse toy_loads toy_repair toy_str id id toy_dumps toy_profile
      "2026-01-01T00:00:00" false sample_miner (synapse_from "hk-1")
      = (self', Ok out) /\
    Miner.total_request_in_interval self' =
      S (Miner.total_request_in_interval sample_miner) /\
    results (Miner.request out) = [] /\
    (select_top_result (Miner.request (synapse_from "hk-1")) [Miner.request out]
       = Some (Miner.request out) <->
     num_results (Miner.request (synapse_from "hk-1")) = 0).
Proof.
  apply (forward_model_down (canned_llm "ééééé") string id unit
           toy_prompt toy_parse toy_loads toy_repair toy_str id id toy_dumps
           toy_profile "2026-01-01T00:00:00" false sample_miner
           (synapse_from "hk-1") ()).
  - reflexivity.
  - intros prompt answer [= <-]. vm_compute. lia.
Defined.
